(** * Bulk mail dispatcher ([src/main.js]): recipient loading, message
    composition and the delivery loop, embedded as Rocq functions.

    JavaScript strings are sequences of UTF-16 code units; promises are
    modelled by their settled value in a small state-and-rejection monad whose
    state is the chronological trace of observable events (file reads,
    transport calls, console lines, timer waits). *)

From Stdlib Require Import List NArith Bool Ascii String Lia Permutation.
Import ListNotations.

Set Warnings "-register-all".

Local Open Scope N_scope.

(** ** JavaScript strings *)

Module JsString.

(** A string is the list of its UTF-16 code units. *)
Definition jsstring := list N.

(** A string literal of the source (ASCII only), as code units. *)
Definition lit (s : string) : jsstring :=
  map N_of_ascii (list_ascii_of_string s).

(** [String.prototype.trim] strips WhiteSpace and LineTerminator code points
    (ECMAScript 2023, 22.1.3.32 with tables 35 and 36). All of them are in
    the basic plane, so each one is a single code unit. *)
Definition is_ws (c : N) : bool :=
  (9 <=? c) && (c <=? 13)          (* TAB, LF, VT, FF, CR *)
  || (c =? 32)                     (* SPACE *)
  || (c =? 160)                    (* NO-BREAK SPACE *)
  || (c =? 5760)                   (* OGHAM SPACE MARK *)
  || (8192 <=? c) && (c <=? 8202)  (* EN QUAD .. HAIR SPACE *)
  || (c =? 8232) || (c =? 8233)    (* LINE / PARAGRAPH SEPARATOR *)
  || (c =? 8239)                   (* NARROW NO-BREAK SPACE *)
  || (c =? 8287)                   (* MEDIUM MATHEMATICAL SPACE *)
  || (c =? 12288)                  (* IDEOGRAPHIC SPACE *)
  || (c =? 65279).                 (* ZERO WIDTH NO-BREAK SPACE (BOM) *)

Fixpoint trimStart (s : jsstring) : jsstring :=
  match s with
  | c :: s' => if is_ws c then trimStart s' else s
  | [] => []
  end.

Definition trimEnd (s : jsstring) : jsstring := rev (trimStart (rev s)).

(** [s.trim()] *)
Definition trim (s : jsstring) : jsstring := trimEnd (trimStart s).

(** [s.split(sep)] for a one-unit separator: the pieces between separators;
    the empty string gives one empty piece. *)
Fixpoint split (sep : N) (s : jsstring) : list jsstring :=
  match s with
  | [] => [[]]
  | c :: s' =>
      if c =? sep then [] :: split sep s'
      else match split sep s' with
           | piece :: rest => (c :: piece) :: rest
           | [] => [[c]]
           end
  end.

(** A text between double quotes. *)
Definition quoted (s : jsstring) : jsstring := [34] ++ s ++ [34].

(** JavaScript truthiness of a string value: every string but the empty one. *)
Definition truthy_string (s : jsstring) : bool :=
  match s with [] => false | _ :: _ => true end.

(** Truthiness of a value that is either [undefined] or a string, as the
    command-line options are. *)
Definition truthy (v : option jsstring) : bool :=
  match v with Some s => truthy_string s | None => false end.

(** [a || b] on such values. *)
Definition or_value (a b : option jsstring) : option jsstring :=
  if truthy a then a else b.

(** The string that a truthy value is. *)
Definition string_value (v : option jsstring) : jsstring :=
  match v with Some s => s | None => [] end.

(** A value interpolated in a template literal: [undefined] prints as the
    word. *)
Definition interpolate (v : option jsstring) : jsstring :=
  match v with Some s => s | None => lit "undefined" end.

Definition starts_with_ws (s : jsstring) : bool :=
  match s with c :: _ => is_ws c | [] => false end.

Definition ends_with_ws (s : jsstring) : bool := starts_with_ws (rev s).

(** Whitespace-only (or empty) strings. *)
Definition blank (s : jsstring) : bool := forallb is_ws s.

(** Strict equality [a === b] of two strings. *)
Fixpoint eqb (a b : jsstring) : bool :=
  match a, b with
  | [], [] => true
  | x :: a', y :: b' => (x =? y) && eqb a' b'
  | _, _ => false
  end.

(** [obj[key]] on an object whose properties were assigned in list order: a
    later assignment to the same key replaces the earlier one. *)
Fixpoint property {V : Type} (key : jsstring) (members : list (jsstring * V))
  : option V :=
  match members with
  | [] => None
  | (k, v) :: rest =>
      match property key rest with
      | Some v' => Some v'
      | None => if eqb k key then Some v else None
      end
  end.

End JsString.
Import JsString.

(** ** Values exchanged with the host *)

(** What [JSON.parse] returns. Numbers keep the text of their literal. *)
Inductive json : Type :=
| JNull
| JBool (b : bool)
| JNumber (literal : jsstring)
| JString (s : jsstring)
| JArray (items : list json)
| JObject (members : list (jsstring * json)).

(** An [Error] object. *)
Record js_error : Type := { name : jsstring; message : jsstring }.

Definition TypeError (message : jsstring) : js_error :=
  {| name := lit "TypeError"; message := message |}.

Definition SyntaxError (message : jsstring) : js_error :=
  {| name := lit "SyntaxError"; message := message |}.

(** [Error.prototype.toString], which a template literal applies. *)
Definition error_toString (e : js_error) : jsstring :=
  match name e, message e with
  | [], msg => msg
  | nm, [] => nm
  | nm, msg => nm ++ lit ": " ++ msg
  end.

(** A thrown value, or the reason of a rejected promise: this program
    rejects with strings, the engine and the libraries with [Error]s. *)
Inductive thrown : Type :=
| ThrownString (s : jsstring)
| ThrownError (e : js_error).

(** [error.message] in a catch clause; a string has no such property. *)
Definition message_of (error : thrown) : option jsstring :=
  match error with
  | ThrownError e => Some (message e)
  | ThrownString _ => None
  end.

Record Attachment : Type := { path : jsstring }.

(** The [mailOptions] object given to [transporter.sendMail]; [None] in
    [text] and [html] is JavaScript's [null], in [subject] it is
    [undefined]. *)
Record Mail : Type := {
  from : jsstring;
  to : jsstring;
  subject : option jsstring;
  text : option jsstring;
  html : option jsstring;
  attachments : list Attachment
}.

(** How [transporter.sendMail] settles: nodemailer resolves, or rejects with
    an [Error] object. *)
Inductive outcome : Type :=
| Delivered
| Failed (error : js_error).

(** Observable events, in the order the program causes them. *)
Inductive event : Type :=
| ReadFile (file : jsstring)                 (* fs.readFile(file, 'utf8', cb) *)
| ReadStream (file : jsstring)               (* fs.createReadStream(file) *)
| SendMail (m : Mail) (o : outcome)          (* transporter.sendMail(m) *)
| ConsoleLog (args : list jsstring)          (* console.log(...args) *)
| ConsoleError (args : list jsstring)        (* console.error(...args) *)
| Wait (ms : N).                             (* setTimeout(resolve, ms) *)

Definition trace := list event.

(** What [fs.readFile] hands its callback. *)
Inductive file_result : Type :=
| FileData (data : jsstring)
| FileError (err : jsstring).

(** How the stream [fs.createReadStream(file).pipe(csv())] finishes after
    its rows: ['end'], an ['error'] of the parser (the only stream with an
    error listener), or an ['error'] of the file stream, which has no
    listener and so ends the process. *)
Inductive stream_end : Type :=
| StreamEnd
| ParserError (err : jsstring)
| SourceError (err : jsstring).

Definition csv_row := list (jsstring * jsstring).

(** The host: Node's built-ins, the csv-parser package and the nodemailer
    transport. The transport may answer differently over time: it sees the
    events so far. *)
(** [JSON.parse] returns a value or throws a [SyntaxError]. *)
Inductive parse_result : Type :=
| Parsed (v : json)
| ParseFailure (message : jsstring).

Record Host : Type := {
  readFile : jsstring -> file_result;
  csv : jsstring -> list csv_row * stream_end;
  extname : jsstring -> jsstring;
  JSON_parse : jsstring -> parse_result;
  sendMail : trace -> Mail -> outcome
}.

(** The ambient configuration read inside [sendEmail]: [argv] of yargs (each
    option given at most once, so a string or [undefined]) and
    [process.env.user]. *)
Record Config : Type := {
  argv_spoofName : option jsstring;
  argv_link : option jsstring;
  argv_link_text : option jsstring;
  argv_attachment : option jsstring;
  env_user : option jsstring
}.

(** ** Promises as a monad over the event trace *)

Inductive settled (A : Type) : Type :=
| Fulfilled (a : A)
| Rejected (r : thrown)
| Crashed (err : jsstring).   (* unhandled ['error'] event: the process dies *)
Arguments Fulfilled {A} a.
Arguments Rejected {A} r.
Arguments Crashed {A} err.

Definition M (A : Type) : Type := trace -> settled A * trace.

Definition ret {A} (a : A) : M A := fun t => (Fulfilled a, t).

Definition reject {A} (r : thrown) : M A := fun t => (Rejected r, t).

Definition crash {A} (err : jsstring) : M A := fun t => (Crashed err, t).

(** [await m] followed by the rest of the function. *)
Definition bind {A B} (m : M A) (k : A -> M B) : M B :=
  fun t =>
    match m t with
    | (Fulfilled a, t') => k a t'
    | (Rejected r, t') => (Rejected r, t')
    | (Crashed e, t') => (Crashed e, t')
    end.

Definition emit (e : event) : M unit := fun t => (Fulfilled tt, t ++ [e]).

(** [try { body } catch (error) { handler }] *)
Definition try_catch {A} (body : M A) (handler : thrown -> M A) : M A :=
  fun t =>
    match body t with
    | (Rejected error, t') => handler error t'
    | done => done
    end.

Declare Scope promise_scope.
Delimit Scope promise_scope with promise.
Notation "x <- m ;; k" := (bind m (fun x => k))
  (at level 61, m at next level, right associativity) : promise_scope.
Notation "m ;; k" := (bind m (fun _ => k))
  (at level 61, right associativity) : promise_scope.
Local Open Scope promise_scope.

(** [for (let x of xs) { await body(x) }]: a rejection leaves the loop. *)
Fixpoint for_of {A} (xs : list A) (body : A -> M unit) : M unit :=
  match xs with
  | [] => ret tt
  | x :: xs' => body x ;; for_of xs' body
  end.

(** A call of an async function that is not awaited: the function runs
    up to its first [await], which changes the trace, and returns its
    promise, the rest of its body, still to run. *)
Definition call (A : Type) : Type := trace -> M A * trace.

(** [xs.map(f)] with [f] an async function: the calls are made one after
    the other, in list order, each up to its first [await]; none of the
    promises has gone on when [map] returns them. *)
Fixpoint map_calls {A B} (f : A -> call B) (xs : list A) (t : trace)
  : list (M B) * trace :=
  match xs with
  | [] => ([], t)
  | x :: xs' =>
      let (p, t1) := f x t in
      let (ps, t2) := map_calls f xs' t1 in
      (p :: ps, t2)
  end.

(** The pending promises go on to their ends, whatever the others do. They
    go on here in list order; in a run the order is the one in which the
    awaited operations settle, and the theorems on whole runs below do not
    depend on it. *)
Fixpoint settle_all (ps : list (M unit)) (t : trace)
  : list (settled unit) * trace :=
  match ps with
  | [] => ([], t)
  | p :: ps' =>
      let (r, t1) := p t in
      let (rs, t2) := settle_all ps' t1 in
      (r :: rs, t2)
  end.

Fixpoint first_failure (rs : list (settled unit)) : settled unit :=
  match rs with
  | [] => Fulfilled tt
  | Fulfilled _ :: rs' => first_failure rs'
  | failure :: _ => failure
  end.

(** [await Promise.all(ps)] *)
Definition Promise_all (ps : list (M unit)) : M unit :=
  fun t => let (rs, t') := settle_all ps t in (first_failure rs, t').

(** The transport calls of a trace, oldest first. *)
Fixpoint sends (t : trace) : list Mail :=
  match t with
  | [] => []
  | SendMail m _ :: t' => m :: sends t'
  | _ :: t' => sends t'
  end.

(** The files opened in a trace. *)
Fixpoint reads (t : trace) : list jsstring :=
  match t with
  | [] => []
  | ReadFile f :: t' => f :: reads t'
  | ReadStream f :: t' => f :: reads t'
  | _ :: t' => reads t'
  end.

Definition throw {A} (e : js_error) : M A := reject (ThrownError e).

(** [xs.map(f)] where [f] may throw: the first exception ends the map. *)
Fixpoint map_M {A B} (f : A -> M B) (xs : list A) : M (list B) :=
  match xs with
  | [] => ret []
  | x :: xs' => y <- f x ;; ys <- map_M f xs' ;; ret (y :: ys)
  end.

(** [`${v}`] for a caught value. *)
Definition thrown_toString (v : thrown) : jsstring :=
  match v with
  | ThrownString s => s
  | ThrownError e => error_toString e
  end.

(** Assignments to properties of a [mailOptions] object. *)
Definition set_text (v : option jsstring) (m : Mail) : Mail :=
  {| from := from m; to := to m; subject := subject m;
     text := v; html := html m; attachments := attachments m |}.

Definition set_html (v : option jsstring) (m : Mail) : Mail :=
  {| from := from m; to := to m; subject := subject m;
     text := text m; html := v; attachments := attachments m |}.

(** [m.attachments.push(a)] *)
Definition push_attachment (a : Attachment) (m : Mail) : Mail :=
  {| from := from m; to := to m; subject := subject m;
     text := text m; html := html m; attachments := attachments m ++ [a] |}.

(** A file's extension as Node's [path.extname] computes it on POSIX: of the
    last component of the path (slashes at the end set aside), the part
    from its last dot on; empty when there is no dot, when the component
    starts with its only dot, and for [..]. *)
Fixpoint drop_slashes (s : jsstring) : jsstring :=
  match s with
  | c :: s' => if c =? 47 then drop_slashes s' else s
  | [] => []
  end.

(** On a reversed path: the reversed last component. *)
Fixpoint until_slash (s : jsstring) : jsstring :=
  match s with
  | c :: s' => if c =? 47 then [] else c :: until_slash s'
  | [] => []
  end.

(** On a reversed component: the reversed text after the last dot, and
    whether anything stands before that dot. [None] without a dot. *)
Fixpoint after_last_dot (s : jsstring) : option (jsstring * bool) :=
  match s with
  | [] => None
  | c :: s' =>
      if c =? 46 then Some ([], truthy_string s')
      else match after_last_dot s' with
           | Some (ext, before) => Some (c :: ext, before)
           | None => None
           end
  end.

Definition posix_extname (p : jsstring) : jsstring :=
  let component := until_slash (drop_slashes (rev p)) in
  match after_last_dot component with
  | Some (ext, true) =>
      if eqb component (lit "..") then [] else 46 :: rev ext
  | _ => []
  end.

(** ** The program *)

Section Program.

Variable h : Host.
Variable cfg : Config.

(** [sendEmail], line 190. *)
Definition displayText : option jsstring :=
  or_value (argv_link_text cfg) (argv_link cfg).

(** [sendEmail], lines 191-193. *)
Definition linkMessage (customMessage : jsstring) (isHtml : bool) : jsstring :=
  if isHtml then
    lit "<p>" ++ customMessage ++ lit "</p><p>Link: <a href=" ++ [34]
    ++ interpolate (argv_link cfg) ++ [34] ++ lit ">"
    ++ interpolate displayText ++ lit "</a></p>"
  else
    customMessage ++ [10] ++ lit "Link: " ++ interpolate (argv_link cfg).

(** [sendEmail], lines 179-204: the [mailOptions] object as it stands when
    it reaches [transporter.sendMail]. *)
Definition mailOptions (to : jsstring) (subject : option jsstring)
    (customMessage : jsstring) (isHtml : bool) : Mail :=
  let mailOptions :=
    {| from := interpolate (or_value (argv_spoofName cfg) (Some (lit "Sender")))
               ++ lit " <" ++ interpolate (env_user cfg) ++ lit ">";
       to := to;
       subject := subject;
       text := if isHtml then None else Some customMessage;
       html := if isHtml then Some customMessage else None;
       attachments := [] |} in
  let mailOptions :=
    if truthy (argv_link cfg) then
      let linkMessage := linkMessage customMessage isHtml in
      set_text (if isHtml then None else Some linkMessage)
        (set_html (if isHtml then Some linkMessage else None) mailOptions)
    else mailOptions in
  let mailOptions :=
    if truthy (argv_attachment cfg) then
      push_attachment {| path := string_value (argv_attachment cfg) |} mailOptions
    else mailOptions in
  mailOptions.

(** [await transporter.sendMail(m)] *)
Definition transporter_sendMail (m : Mail) : M unit :=
  fun t =>
    let o := sendMail h t m in
    match o with
    | Delivered => (Fulfilled tt, t ++ [SendMail m o])
    | Failed error => (Rejected (ThrownError error), t ++ [SendMail m o])
    end.

(** [sendEmail], line 208. *)
Definition log_sent (to : jsstring) : event :=
  ConsoleLog [lit "Email sent to:"; to].

(** [sendEmail], line 210. *)
Definition log_error (to : jsstring) (error : thrown) : event :=
  ConsoleError [lit "Error sending email to"; to; lit ":";
                interpolate (message_of error)].

(** [sendEmail], lines 178-212. *)
Definition sendEmail (to : jsstring) (subject : option jsstring)
    (customMessage : jsstring) (isHtml : bool) : M unit :=
  let mailOptions := mailOptions to subject customMessage isHtml in
  try_catch
    (transporter_sendMail mailOptions ;; emit (log_sent to))
    (fun error => emit (log_error to error)).

(** What awaiting the promise of [transporter.sendMail] gives, once the
    transport has answered. *)
Definition settle (o : outcome) : M unit :=
  match o with
  | Delivered => ret tt
  | Failed error => throw error
  end.

(** [sendEmail], lines 207-211, from the [await] on: what is left of the
    function once the transport has been called. *)
Definition pending (to : jsstring) (o : outcome) : M unit :=
  try_catch
    (settle o ;; emit (log_sent to))
    (fun error => emit (log_error to error)).

(** A call [sendEmail(to, subject, customMessage, isHtml)] that is not
    awaited, as under [map] at line 122: the message is composed and handed
    to the transport (lines 179-207), the rest is pending. *)
Definition sendEmail_call (to : jsstring) (subject : option jsstring)
    (customMessage : jsstring) (isHtml : bool) : call unit :=
  fun t =>
    let mailOptions := mailOptions to subject customMessage isHtml in
    let o := sendMail h t mailOptions in
    (pending to o, t ++ [SendMail mailOptions o]).

(** [readEmailsFromTxt], lines 126-137. *)
Definition readEmailsFromTxt (targetFilePath : jsstring) : M (list jsstring) :=
  emit (ReadFile targetFilePath) ;;
  match readFile h targetFilePath with
  | FileError err => reject (ThrownString (lit "Error reading file: " ++ err))
  | FileData data =>
      let recipients :=
        filter (fun email => truthy_string (trim email)) (split 10 data) in
      ret recipients
  end.

(** The ['data'] listener of [readEmailsFromCsv], run on every row. *)
Fixpoint on_data (rows : list csv_row) (recipients : list jsstring)
  : list jsstring :=
  match rows with
  | [] => recipients
  | row :: rows' =>
      on_data rows'
        (if truthy (property (lit "email") row)
         then recipients ++ [trim (string_value (property (lit "email") row))]
         else recipients)
  end.

(** [readEmailsFromCsv], lines 140-157. *)
Definition readEmailsFromCsv (targetFilePath : jsstring) : M (list jsstring) :=
  let recipients := [] in
  emit (ReadStream targetFilePath) ;;
  let (rows, ending) := csv h targetFilePath in
  let recipients := on_data rows recipients in
  match ending with
  | StreamEnd => ret recipients
  | ParserError err =>
      reject (ThrownString (lit "Error reading CSV file: " ++ err))
  | SourceError err => crash err
  end.

(** [JSON.parse(data)] *)
Definition parse (data : jsstring) : M json :=
  match JSON_parse h data with
  | Parsed v => ret v
  | ParseFailure message => throw (SyntaxError message)
  end.

(** [v.map(f)] on a parsed value: only arrays have [map]. (The texts of the
    engine's errors are V8's.) *)
Definition json_map {B} (v : json) (f : json -> M B) : M (list B) :=
  match v with
  | JArray items => map_M f items
  | JNull => throw (TypeError (lit "Cannot read properties of null (reading 'map')"))
  | _ => throw (TypeError (lit "JSON.parse(...).map is not a function"))
  end.

(** [r.email]: [None] is [undefined]. *)
Definition get_email (r : json) : M (option json) :=
  match r with
  | JObject members => ret (property (lit "email") members)
  | JNull => throw (TypeError (lit "Cannot read properties of null (reading 'email')"))
  | _ => ret None
  end.

(** [v.trim()]: only strings have [trim]. *)
Definition call_trim (v : option json) : M jsstring :=
  match v with
  | Some (JString s) => ret (trim s)
  | None => throw (TypeError (lit "Cannot read properties of undefined (reading 'trim')"))
  | Some JNull => throw (TypeError (lit "Cannot read properties of null (reading 'trim')"))
  | Some _ => throw (TypeError (lit "r.email.trim is not a function"))
  end.

(** [readEmailsFromJson], lines 160-175. *)
Definition readEmailsFromJson (targetFilePath : jsstring) : M (list jsstring) :=
  emit (ReadFile targetFilePath) ;;
  match readFile h targetFilePath with
  | FileError err => reject (ThrownString (lit "Error reading file: " ++ err))
  | FileData data =>
      try_catch
        (v <- parse data ;;
         trimmed <- json_map v (fun r => email <- get_email r ;; call_trim email) ;;
         let recipients := filter truthy_string trimmed in
         ret recipients)
        (fun parseError =>
           reject (ThrownString (lit "Error parsing JSON: "
                                 ++ thrown_toString parseError)))
  end.

(** [sendEmails], line 112. *)
Definition unsupported_format : event :=
  ConsoleLog [lit "Unsupported file format. Please use .txt, .csv, or .json files."].

(** [sendEmails], lines 98-115: the recipients, or [None] when the function
    returns at line 113. *)
Definition load (targetFilePath singleEmail : option jsstring)
  : M (option (list jsstring)) :=
  let recipients := [] in
  if truthy singleEmail then
    ret (Some (recipients ++ [trim (string_value singleEmail)]))
  else
    match targetFilePath with
    | None =>
        throw (TypeError (lit "The " ++ [34] ++ lit "path" ++ [34]
                          ++ lit " argument must be of type string. Received undefined"))
    | Some targetFilePath =>
        let fileExtension := extname h targetFilePath in
        if eqb fileExtension (lit ".txt") then
          recipients <- readEmailsFromTxt targetFilePath ;; ret (Some recipients)
        else if eqb fileExtension (lit ".csv") then
          recipients <- readEmailsFromCsv targetFilePath ;; ret (Some recipients)
        else if eqb fileExtension (lit ".json") then
          recipients <- readEmailsFromJson targetFilePath ;; ret (Some recipients)
        else
          emit unsupported_format ;; ret None
    end.

(** [sendEmails], lines 117-120: the loop. *)
Definition throttled_loop (recipients : list jsstring)
    (subject : option jsstring) (message : jsstring) (isHtml : bool) : M unit :=
  for_of recipients (fun recipient =>
    sendEmail (trim recipient) subject message isHtml ;;
    emit (Wait 500)).

(** [sendEmails], line 122: [map] calls [sendEmail] for every recipient,
    then [Promise.all] is awaited. *)
Definition fan_out (recipients : list jsstring) (subject : option jsstring)
    (message : jsstring) (isHtml : bool) : M unit :=
  fun t =>
    let (promises, t') :=
      map_calls (fun recipient =>
        sendEmail_call (trim recipient) subject message isHtml) recipients t in
    Promise_all promises t'.

(** [sendEmails], lines 117-122: the loop, then the [Promise.all]. *)
Definition deliver (recipients : list jsstring) (subject : option jsstring)
    (message : jsstring) (isHtml : bool) : M unit :=
  throttled_loop recipients subject message isHtml ;;
  fan_out recipients subject message isHtml.

(** [sendEmails], lines 97-123. *)
Definition sendEmails (targetFilePath singleEmail : option jsstring)
    (subject : option jsstring) (message : jsstring) (isHtml : bool) : M unit :=
  loaded <- load targetFilePath singleEmail ;;
  match loaded with
  | None => ret tt
  | Some recipients => deliver recipients subject message isHtml
  end.

End Program.

(** ** Reading the trace *)

(** The console line with which [sendEmail] reports an outcome. *)
Definition report (to : jsstring) (o : outcome) : event :=
  match o with
  | Delivered => log_sent to
  | Failed error => log_error to (ThrownError error)
  end.

(** The message that [sendEmails] composes for a recipient of its list. *)
Definition mail_for (cfg : Config) (subj : option jsstring) (msg : jsstring)
    (isHtml : bool) (recipient : jsstring) : Mail :=
  mailOptions cfg (trim recipient) subj msg isHtml.

(** Every failed transport call of the trace has its console line there. *)
Definition logged (t : trace) : Prop :=
  forall m error,
    In (SendMail m (Failed error)) t ->
    In (log_error (to m) (ThrownError error)) t.

(** A recipient handed to the transport carries no whitespace at its ends. *)
Definition trimmed (s : jsstring) : Prop :=
  starts_with_ws s = false /\ ends_with_ws s = false /\ trim s = s.

(** A computation that causes no event. *)
Definition silent {A} (m : M A) : Prop := forall t, snd (m t) = t.

(** The extensions that [sendEmails] dispatches on. *)
Definition supported (fileExtension : jsstring) : bool :=
  eqb fileExtension (lit ".txt") || eqb fileExtension (lit ".csv")
  || eqb fileExtension (lit ".json").

(** An object without an [email] property. *)
Definition lacks_email (r : json) : bool :=
  match r with
  | JObject members =>
      match property (lit "email") members with
      | None => true
      | Some _ => false
      end
  | _ => false
  end.

(** An object whose [email] property is a string. *)
Definition has_string_email (r : json) : bool :=
  match r with
  | JObject members =>
      match property (lit "email") members with
      | Some (JString _) => true
      | _ => false
      end
  | _ => false
  end.

(** A body that holds text: neither [null] nor the empty string. *)
Definition populated (body : option jsstring) : bool := truthy body.

(** ** What the specification says of the loaders *)

(** Text files, in the specification's words: split the content on line
    breaks, discard the blank and whitespace-only lines, trim each remaining
    line. *)
Definition txt_spec (data : jsstring) : list jsstring :=
  map trim (filter (fun line => negb (blank line)) (split 10 data)).

(** JSON files, in the specification's words: the trimmed non-empty [email]
    values of the objects that have the field, in array order; objects
    missing the field are skipped. *)
Fixpoint json_spec (items : list json) : list jsstring :=
  match items with
  | [] => []
  | JObject members :: rest =>
      match property (lit "email") members with
      | Some (JString s) =>
          if truthy_string (trim s) then trim s :: json_spec rest
          else json_spec rest
      | _ => json_spec rest
      end
  | _ :: rest => json_spec rest
  end.

(** ** Hosts for the examples *)

Definition enoent : jsstring :=
  lit "Error: ENOENT: no such file or directory".

(** A host whose files and their JSON readings are given by tables, with
    POSIX paths, and no CSV rows. *)
Definition table_host (files : list (jsstring * jsstring))
    (parses : list (jsstring * json)) (transport : trace -> Mail -> outcome)
  : Host :=
  {| readFile := fun file =>
       match property file files with
       | Some data => FileData data
       | None => FileError enoent
       end;
     csv := fun _ => ([], SourceError enoent);
     extname := posix_extname;
     JSON_parse := fun data =>
       match property data parses with
       | Some v => Parsed v
       | None => ParseFailure (lit "Unexpected token")
       end;
     sendMail := transport |}.

Definition always_delivers : trace -> Mail -> outcome := fun _ _ => Delivered.

Definition connection_refused : js_error :=
  {| name := lit "Error"; message := lit "connect ECONNREFUSED" |}.

Definition always_fails : trace -> Mail -> outcome :=
  fun _ _ => Failed connection_refused.

Definition no_options : Config :=
  {| argv_spoofName := None; argv_link := None; argv_link_text := None;
     argv_attachment := None; env_user := Some (lit "me@x.com") |}.

Definition with_link (url : jsstring) : Config :=
  {| argv_spoofName := None; argv_link := Some url; argv_link_text := None;
     argv_attachment := None; env_user := Some (lit "me@x.com") |}.

(** ** The top level of the script *)

(** The options that the top level of the script reads (lines 215-236);
    [--type] is required and one of [html], [text]. *)
Record Options : Type := {
  argv_m : option jsstring;
  argv_message_file : option jsstring;
  argv_type : jsstring;
  argv_targets : option jsstring;
  argv_email : option jsstring;
  argv_subject : option jsstring
}.

(** How the top level ends: [process.exit(code)], or the promise of
    [sendEmails], which nothing there catches, settled. *)
Inductive process_end : Type :=
| Exit (code : N)
| Settled (s : settled unit).

Section TopLevel.

Variable h : Host.
Variable cfg : Config.

(** [path.resolve] *)
Variable resolve : jsstring -> jsstring.

(** Lines 215-236, which run once yargs has accepted the command line
    (lines 12-75: [--help], a missing required option or two conflicting
    options end the process there, before any of this). An error given to
    [console.error] is shown by its text. *)
Definition main (argv : Options) (t : trace) : process_end * trace :=
  let message := or_value (argv_m argv) None in
  let isHtml := eqb (argv_type argv) (lit "html") in
  if truthy message then
    let (s, t') :=
      sendEmails h cfg (argv_targets argv) (argv_email argv)
        (argv_subject argv) (string_value message) isHtml t in
    (Settled s, t')
  else if truthy (argv_message_file argv) then
    let messageFilePath := resolve (string_value (argv_message_file argv)) in
    match readFile h messageFilePath with
    | FileError err =>
        (Exit 1, t ++ [ReadFile messageFilePath;
                       ConsoleError [lit "Error reading message file:"; err]])
    | FileData messageFileContent =>
        let (s, t') :=
          sendEmails h cfg (argv_targets argv) (argv_email argv)
            (argv_subject argv) messageFileContent isHtml
            (t ++ [ReadFile messageFilePath]) in
        (Settled s, t')
    end
  else
    (Exit 1,
     t ++ [ConsoleError
             [lit "Error: Please provide a message with -m or use --message-file."]]).

End TopLevel.

(** ** More readings of the trace *)

(** The waits of a trace, in milliseconds. *)
Fixpoint waits (t : trace) : list N :=
  match t with
  | [] => []
  | Wait ms :: t' => ms :: waits t'
  | _ :: t' => waits t'
  end.

(** The transport call made for a recipient of the list, with its
    outcome. *)
Definition call_event (cfg : Config) (subj : option jsstring) (msg : jsstring)
    (isHtml : bool) (ro : jsstring * outcome) : event :=
  SendMail (mail_for cfg subj msg isHtml (fst ro)) (snd ro).

(** The console line for a recipient of the list and an outcome. *)
Definition line_event (ro : jsstring * outcome) : event :=
  report (trim (fst ro)) (snd ro).

(** The events of one turn of the loop on a recipient with a given
    outcome. *)
Definition turn_events (cfg : Config) (subj : option jsstring) (msg : jsstring)
    (isHtml : bool) (ro : jsstring * outcome) : trace :=
  [call_event cfg subj msg isHtml ro; line_event ro; Wait 500].

(** The addresses of the rows of a CSV file: of each row with a non-empty
    [email] column, that column trimmed. *)
Definition csv_emails (rows : list csv_row) : list jsstring :=
  flat_map (fun row =>
    if truthy (property (lit "email") row)
    then [trim (string_value (property (lit "email") row))]
    else []) rows.

(** A settled promise without its value. *)
Definition forget {A} (s : settled A) : settled unit :=
  match s with
  | Fulfilled _ => Fulfilled tt
  | Rejected r => Rejected r
  | Crashed e => Crashed e
  end.

(** A configuration by its fields. *)
Definition config (spoofName link link_text attachment user : option jsstring)
  : Config :=
  {| argv_spoofName := spoofName; argv_link := link;
     argv_link_text := link_text; argv_attachment := attachment;
     env_user := user |}.

(** A host whose CSV stream gives the same rows and end for every file. *)
Definition csv_host (rows : list csv_row) (ending : stream_end) : Host :=
  {| readFile := fun _ => FileError enoent;
     csv := fun _ => (rows, ending);
     extname := posix_extname;
     JSON_parse := fun _ => ParseFailure (lit "Unexpected token");
     sendMail := always_delivers |}.

(** A parsed JSON document that is an array. *)
Definition is_array (r : parse_result) : bool :=
  match r with
  | Parsed (JArray _) => true
  | _ => false
  end.

(** * Properties *)

(** ** Trimming *)

Section Trimming.

Lemma trimStart_split (s : jsstring) :
  exists ws, s = ws ++ trimStart s /\ blank ws = true.
Proof.
  induction s as [|c s IH]; simpl.
  - exists []. split; reflexivity.
  - destruct (is_ws c) eqn:Hc.
    + destruct IH as [ws [Hs Hws]].
      exists (c :: ws). simpl. rewrite Hc, Hws. split; [congruence | reflexivity].
    + exists []. split; reflexivity.
Qed.

Lemma starts_trimStart (s : jsstring) : starts_with_ws (trimStart s) = false.
Proof.
  induction s as [|c s IH]; simpl; [reflexivity|].
  destruct (is_ws c) eqn:Hc; [exact IH | simpl; exact Hc].
Qed.

Lemma trimStart_fixed (s : jsstring) :
  starts_with_ws s = false -> trimStart s = s.
Proof.
  destruct s as [|c s]; simpl; [reflexivity|].
  intros ->. reflexivity.
Qed.

Lemma blank_app (a b : jsstring) : blank (a ++ b) = blank a && blank b.
Proof. apply forallb_app. Qed.

Lemma blank_rev (s : jsstring) : blank (rev s) = blank s.
Proof.
  induction s as [|c s IH]; simpl; [reflexivity|].
  rewrite blank_app, IH. simpl. rewrite andb_true_r. apply andb_comm.
Qed.

Lemma blank_trimStart (s : jsstring) : blank (trimStart s) = blank s.
Proof.
  induction s as [|c s IH]; simpl; [reflexivity|].
  destruct (is_ws c) eqn:Hc; simpl; [exact IH | rewrite Hc; reflexivity].
Qed.

Lemma truthy_trimStart (s : jsstring) :
  truthy_string (trimStart s) = negb (blank s).
Proof.
  induction s as [|c s IH]; simpl; [reflexivity|].
  destruct (is_ws c); simpl; [exact IH | reflexivity].
Qed.

Lemma truthy_rev (s : jsstring) : truthy_string (rev s) = truthy_string s.
Proof.
  destruct s as [|c s]; simpl; [reflexivity|].
  destruct (rev s); reflexivity.
Qed.

(** The callback of the text loader's filter keeps exactly the lines that
    are not whitespace-only. *)
Lemma truthy_trim (s : jsstring) : truthy_string (trim s) = negb (blank s).
Proof.
  unfold trim, trimEnd.
  rewrite truthy_rev, truthy_trimStart, blank_rev, blank_trimStart.
  reflexivity.
Qed.

Lemma ends_trimEnd (s : jsstring) : ends_with_ws (trimEnd s) = false.
Proof.
  unfold ends_with_ws, trimEnd. rewrite rev_involutive. apply starts_trimStart.
Qed.

Lemma trimEnd_split (s : jsstring) :
  exists ws, s = trimEnd s ++ ws.
Proof.
  destruct (trimStart_split (rev s)) as [ws [Hs _]].
  exists (rev ws). unfold trimEnd.
  rewrite <- rev_app_distr, <- Hs, rev_involutive. reflexivity.
Qed.

Lemma starts_trimEnd (s : jsstring) :
  starts_with_ws s = false -> starts_with_ws (trimEnd s) = false.
Proof.
  intros Hs. destruct (trimEnd_split s) as [ws Hsplit].
  destruct (trimEnd s) as [|c u]; [reflexivity|].
  rewrite Hsplit in Hs. exact Hs.
Qed.

Lemma trimEnd_fixed (s : jsstring) :
  ends_with_ws s = false -> trimEnd s = s.
Proof.
  unfold ends_with_ws, trimEnd. intros Hs.
  rewrite (trimStart_fixed _ Hs). apply rev_involutive.
Qed.

Lemma starts_trim (s : jsstring) : starts_with_ws (trim s) = false.
Proof. apply starts_trimEnd, starts_trimStart. Qed.

Lemma ends_trim (s : jsstring) : ends_with_ws (trim s) = false.
Proof. apply ends_trimEnd. Qed.

Lemma trim_idempotent (s : jsstring) : trim (trim s) = trim s.
Proof.
  unfold trim at 1.
  rewrite (trimStart_fixed _ (starts_trim s)).
  apply trimEnd_fixed, ends_trim.
Qed.

Lemma trim_trimmed (s : jsstring) : trimmed (trim s).
Proof.
  repeat split; [apply starts_trim | apply ends_trim | apply trim_idempotent].
Qed.

End Trimming.

(** ** Composition of the message *)

Section Composition.

Variable cfg : Config.

Lemma to_mailOptions rcpt subj msg isHtml :
  to (mailOptions cfg rcpt subj msg isHtml) = rcpt.
Proof.
  unfold mailOptions.
  destruct (truthy (argv_link cfg)), (truthy (argv_attachment cfg)); reflexivity.
Qed.

Lemma text_mailOptions to subj msg isHtml :
  text (mailOptions cfg to subj msg isHtml) =
  if isHtml then None
  else Some (if truthy (argv_link cfg) then linkMessage cfg msg false else msg).
Proof.
  unfold mailOptions.
  destruct (truthy (argv_link cfg)), (truthy (argv_attachment cfg)), isHtml;
    reflexivity.
Qed.

Lemma html_mailOptions to subj msg isHtml :
  html (mailOptions cfg to subj msg isHtml) =
  if isHtml
  then Some (if truthy (argv_link cfg) then linkMessage cfg msg true else msg)
  else None.
Proof.
  unfold mailOptions.
  destruct (truthy (argv_link cfg)), (truthy (argv_attachment cfg)), isHtml;
    reflexivity.
Qed.

(** Without a link the body is the base message as it is. *)
Lemma body_without_link to subj msg isHtml :
  truthy (argv_link cfg) = false ->
  text (mailOptions cfg to subj msg isHtml) = (if isHtml then None else Some msg)
  /\ html (mailOptions cfg to subj msg isHtml) = (if isHtml then Some msg else None).
Proof.
  intros Hlink. rewrite text_mailOptions, html_mailOptions, Hlink. split; reflexivity.
Qed.

(** The attachment list holds the given path and nothing else. *)
Lemma attachments_mailOptions to subj msg isHtml :
  attachments (mailOptions cfg to subj msg isHtml) =
  if truthy (argv_attachment cfg)
  then [{| path := string_value (argv_attachment cfg) |}]
  else [].
Proof.
  unfold mailOptions.
  destruct (truthy (argv_link cfg)), (truthy (argv_attachment cfg)); reflexivity.
Qed.

End Composition.

(** ** The promise monad *)

Lemma bind_fulfilled {A B} (m : M A) (k : A -> M B) (t t' : trace) (a : A) :
  m t = (Fulfilled a, t') -> bind m k t = k a t'.
Proof. unfold bind. intros ->. reflexivity. Qed.

Lemma bind_rejected {A B} (m : M A) (k : A -> M B) (t t' : trace) (r : thrown) :
  m t = (Rejected r, t') -> bind m k t = (Rejected r, t').
Proof. unfold bind. intros ->. reflexivity. Qed.

Lemma bind_crashed {A B} (m : M A) (k : A -> M B) (t t' : trace) (e : jsstring) :
  m t = (Crashed e, t') -> bind m k t = (Crashed e, t').
Proof. unfold bind. intros ->. reflexivity. Qed.

(** ** One send *)

Section OneSend.

Variable h : Host.
Variable cfg : Config.

(** What a call of [sendEmail] does: one transport call with the composed
    message, then one console line, and the promise fulfils. *)
Lemma sendEmail_run to subj msg isHtml (t : trace) :
  let m := mailOptions cfg to subj msg isHtml in
  sendEmail h cfg to subj msg isHtml t =
  (Fulfilled tt, t ++ [SendMail m (sendMail h t m); report to (sendMail h t m)]).
Proof.
  intros m. unfold sendEmail, try_catch, bind, transporter_sendMail, emit.
  fold m. destruct (sendMail h t m) as [|error]; simpl;
    rewrite <- app_assoc; reflexivity.
Qed.

Lemma sends_app (t1 t2 : trace) : sends (t1 ++ t2) = sends t1 ++ sends t2.
Proof.
  induction t1 as [|e t1 IH]; simpl; [reflexivity|].
  destruct e; simpl; rewrite IH; reflexivity.
Qed.

Lemma reads_app (t1 t2 : trace) : reads (t1 ++ t2) = reads t1 ++ reads t2.
Proof.
  induction t1 as [|e t1 IH]; simpl; [reflexivity|].
  destruct e; simpl; rewrite IH; reflexivity.
Qed.

Lemma sends_report rcpt o (t : trace) : sends (report rcpt o :: t) = sends t.
Proof. destruct o; reflexivity. Qed.

Lemma sends_send m o (t : trace) : sends (SendMail m o :: t) = m :: sends t.
Proof. reflexivity. Qed.

Lemma sends_wait ms (t : trace) : sends (Wait ms :: t) = sends t.
Proof. reflexivity. Qed.

Lemma sendEmail_sends to subj msg isHtml (t : trace) :
  sends (snd (sendEmail h cfg to subj msg isHtml t)) =
  sends t ++ [mailOptions cfg to subj msg isHtml].
Proof.
  rewrite sendEmail_run. cbn [snd].
  rewrite sends_app, sends_send, sends_report. reflexivity.
Qed.

End OneSend.

(** C3. Whatever the base message, the content mode and the link, link text
    and attachment options, the message that a send hands to the transport
    has the body of the inactive content mode empty ([null]), so the plain
    and the HTML body are never both populated. *)
Theorem bodies_mutually_exclusive (h : Host) (cfg : Config)
    (to : jsstring) (subj : option jsstring) (msg : jsstring) (isHtml : bool)
    (t : trace) :
  exists m,
    sends (snd (sendEmail h cfg to subj msg isHtml t)) = sends t ++ [m]
    /\ (if isHtml then text m = None else html m = None)
    /\ populated (text m) && populated (html m) = false.
Proof.
  exists (mailOptions cfg to subj msg isHtml).
  split; [apply sendEmail_sends|].
  rewrite text_mailOptions, html_mailOptions.
  destruct isHtml; simpl; split; try reflexivity.
  apply andb_false_r.
Qed.

(** C4. With a link given, the display text is the link text when one is
    given and the URL otherwise, and the link message replaces the body of
    the active content mode: in HTML mode the HTML body is
    <p>base</p><p>Link: <a href="url">display text</a></p> and the plain
    body is empty; in plain mode the plain body is the base message, a line
    feed and [Link: url], and the HTML body is empty. *)
Theorem link_overrides_body (cfg : Config) (to : jsstring)
    (subj : option jsstring) (base url : jsstring) :
  argv_link cfg = Some url ->
  truthy_string url = true ->
  (argv_link_text cfg = None -> interpolate (displayText cfg) = url)
  /\ (forall shown, argv_link_text cfg = Some shown ->
        truthy_string shown = true -> interpolate (displayText cfg) = shown)
  /\ html (mailOptions cfg to subj base true) =
       Some (lit "<p>" ++ base ++ lit "</p><p>Link: <a href=" ++ [34] ++ url
             ++ [34] ++ lit ">" ++ interpolate (displayText cfg) ++ lit "</a></p>")
  /\ text (mailOptions cfg to subj base true) = None
  /\ text (mailOptions cfg to subj base false) =
       Some (base ++ [10] ++ lit "Link: " ++ url)
  /\ html (mailOptions cfg to subj base false) = None.
Proof.
  intros Hlink Hurl.
  assert (Htruthy : truthy (argv_link cfg) = true) by (rewrite Hlink; exact Hurl).
  repeat split.
  - intros Hnone. unfold displayText, or_value. rewrite Hnone, Hlink. reflexivity.
  - intros shown Hshown Htr. unfold displayText, or_value.
    rewrite Hshown. simpl. rewrite Htr. reflexivity.
  - rewrite html_mailOptions, Htruthy. unfold linkMessage. rewrite Hlink. reflexivity.
  - rewrite text_mailOptions. reflexivity.
  - rewrite text_mailOptions, Htruthy. unfold linkMessage. rewrite Hlink. reflexivity.
  - rewrite html_mailOptions. reflexivity.
Qed.

Lemma link_overrides_body_witness :
  let cfg := with_link (lit "https://x.com") in
  html (mailOptions cfg (lit "a@x.com") None (lit "Hi") true) =
    Some (lit "<p>Hi</p><p>Link: <a href=" ++ [34] ++ lit "https://x.com"
          ++ [34] ++ lit ">https://x.com</a></p>")
  /\ text (mailOptions cfg (lit "a@x.com") None (lit "Hi") true) = None
  /\ text (mailOptions cfg (lit "a@x.com") None (lit "Hi") false) =
       Some (lit "Hi" ++ [10] ++ lit "Link: https://x.com")
  /\ html (mailOptions cfg (lit "a@x.com") None (lit "Hi") false) = None.
Proof.
  intros cfg.
  destruct (link_overrides_body cfg (lit "a@x.com") None (lit "Hi")
              (lit "https://x.com") eq_refl eq_refl)
    as [_ [_ [Hhtml [Htext [Hplain Hnohtml]]]]].
  repeat split; assumption.
Defined.

(** C8. Composing with the same inputs gives the same message whatever has
    happened before and whatever the transport does: the message handed to
    the transport is a function of the arguments and the configuration
    alone. *)
Theorem composition_deterministic (h1 h2 : Host) (cfg : Config)
    (to : jsstring) (subj : option jsstring) (msg : jsstring) (isHtml : bool)
    (t1 t2 : trace) :
  exists m,
    sends (snd (sendEmail h1 cfg to subj msg isHtml t1)) = sends t1 ++ [m]
    /\ sends (snd (sendEmail h2 cfg to subj msg isHtml t2)) = sends t2 ++ [m].
Proof.
  exists (mailOptions cfg to subj msg isHtml).
  split; apply sendEmail_sends.
Qed.

(** C9. A call of [sendEmail] always fulfils: whatever the arguments, the
    configuration, the events before and the answer of the transport, a
    rejection of the transport is caught inside and none leaves the call;
    the call leaves one transport call and the console line of its
    outcome. *)
Theorem sendEmail_always_fulfils (h : Host) (cfg : Config)
    (to : jsstring) (subj : option jsstring) (msg : jsstring) (isHtml : bool)
    (t : trace) :
  let m := mailOptions cfg to subj msg isHtml in
  let o := sendMail h t m in
  fst (sendEmail h cfg to subj msg isHtml t) = Fulfilled tt
  /\ snd (sendEmail h cfg to subj msg isHtml t) =
     t ++ [SendMail m o; report to o].
Proof.
  intros m o. rewrite sendEmail_run. split; reflexivity.
Qed.

(** ** The delivery loop *)

Section Delivery.

Variable h : Host.
Variable cfg : Config.
Variable subj : option jsstring.
Variable msg : jsstring.
Variable isHtml : bool.

Lemma logged_app (t1 t2 : trace) : logged t1 -> logged t2 -> logged (t1 ++ t2).
Proof.
  intros H1 H2 m error Hin. apply in_app_or in Hin. apply in_or_app.
  destruct Hin as [Hin|Hin]; [left; apply H1 | right; apply H2]; exact Hin.
Qed.

Lemma logged_send rcpt (o : outcome) :
  logged [SendMail (mailOptions cfg rcpt subj msg isHtml) o; report rcpt o].
Proof.
  intros m error [Heq|[Heq|[]]].
  - injection Heq as <- ->. rewrite to_mailOptions. simpl. auto.
  - destruct o; discriminate.
Qed.

Lemma logged_wait (ms : N) : logged [Wait ms].
Proof. intros m error [Heq|[]]. discriminate. Qed.

(** The sequential pass: every recipient is attempted, in list order, and
    the loop runs to its end. *)
Lemma loop_run (recipients : list jsstring) (t : trace) :
  exists evs,
    throttled_loop h cfg recipients subj msg isHtml t
    = (Fulfilled tt, t ++ evs)
    /\ sends evs = map (mail_for cfg subj msg isHtml) recipients
    /\ logged evs.
Proof.
  unfold throttled_loop.
  revert t. induction recipients as [|r rs IH]; intros t; simpl.
  - exists []. rewrite app_nil_r. repeat split. intros m e [].
  - unfold bind at 1. unfold bind at 1. rewrite sendEmail_run.
    unfold emit at 1.
    set (m := mailOptions cfg (trim r) subj msg isHtml).
    set (o := sendMail h t m).
    destruct (IH ((t ++ [SendMail m o; report (trim r) o]) ++ [Wait 500]))
      as [evs [Hrun [Hsends Hlogged]]].
    exists ([SendMail m o; report (trim r) o] ++ [Wait 500] ++ evs).
    rewrite Hrun. repeat split.
    + rewrite <- !app_assoc. reflexivity.
    + rewrite !sends_app, Hsends, sends_send, sends_report, sends_wait.
      reflexivity.
    + apply logged_app; [apply logged_send|].
      apply logged_app; [apply logged_wait | exact Hlogged].
Qed.

(** What is left of a call goes on to one console line and fulfils. *)
Lemma pending_run rcpt (o : outcome) (t : trace) :
  pending rcpt o t = (Fulfilled tt, t ++ [report rcpt o]).
Proof.
  unfold pending, try_catch, bind, settle, emit.
  destruct o as [|error]; reflexivity.
Qed.

(** Awaiting a call at once is the awaited [sendEmail] of the loop. *)
Lemma sendEmail_call_awaited rcpt (t : trace) :
  fst (sendEmail_call h cfg rcpt subj msg isHtml t)
      (snd (sendEmail_call h cfg rcpt subj msg isHtml t))
  = sendEmail h cfg rcpt subj msg isHtml t.
Proof.
  unfold sendEmail_call. cbn [fst snd].
  rewrite pending_run, sendEmail_run, <- app_assoc. reflexivity.
Qed.

(** [map] at line 122: one transport call per recipient, in list order,
    and nothing else; the promises are all pending. *)
Lemma map_calls_run (recipients : list jsstring) (t : trace) :
  exists outcomes,
    List.length outcomes = List.length recipients
    /\ map_calls (fun recipient =>
         sendEmail_call h cfg (trim recipient) subj msg isHtml) recipients t
       = (map (fun ro => pending (trim (fst ro)) (snd ro))
            (combine recipients outcomes),
          t ++ map (call_event cfg subj msg isHtml)
                 (combine recipients outcomes)).
Proof.
  revert t. induction recipients as [|r rs IH]; intros t.
  - exists []. simpl. rewrite app_nil_r. split; reflexivity.
  - cbn [map_calls]. unfold sendEmail_call at 1.
    set (m := mailOptions cfg (trim r) subj msg isHtml).
    set (o := sendMail h t m).
    destruct (IH (t ++ [SendMail m o])) as [os [Hlen Hrun]].
    exists (o :: os). split; [simpl; congruence|].
    rewrite Hrun. cbn [combine map fst snd].
    rewrite <- app_assoc. reflexivity.
Qed.

Lemma settle_all_run (ros : list (jsstring * outcome)) (t : trace) :
  settle_all (map (fun ro => pending (trim (fst ro)) (snd ro)) ros) t
  = (map (fun _ => Fulfilled tt) ros, t ++ map line_event ros).
Proof.
  revert t. induction ros as [|ro ros IH]; intros t.
  - simpl. rewrite app_nil_r. reflexivity.
  - cbn [map settle_all]. rewrite pending_run, IH.
    unfold line_event at 2. rewrite <- app_assoc. reflexivity.
Qed.

Lemma first_failure_none {A} (xs : list A) :
  first_failure (map (fun _ => Fulfilled tt) xs) = Fulfilled tt.
Proof. induction xs as [|x xs IH]; simpl; [reflexivity | exact IH]. Qed.

(** Line 122 as a whole: the transport calls first, then the console
    lines. *)
Lemma fan_out_shape (recipients : list jsstring) (t : trace) :
  exists outcomes,
    List.length outcomes = List.length recipients
    /\ fan_out h cfg recipients subj msg isHtml t
       = (Fulfilled tt,
          t ++ map (call_event cfg subj msg isHtml)
                 (combine recipients outcomes)
            ++ map line_event (combine recipients outcomes)).
Proof.
  destruct (map_calls_run recipients t) as [os [Hlen Hrun]].
  exists os. split; [exact Hlen|].
  unfold fan_out. rewrite Hrun. unfold Promise_all.
  rewrite settle_all_run, first_failure_none, <- app_assoc. reflexivity.
Qed.

Lemma sends_calls (ros : list (jsstring * outcome)) :
  sends (map (call_event cfg subj msg isHtml) ros)
  = map (mail_for cfg subj msg isHtml) (map fst ros).
Proof.
  induction ros as [|ro ros IH]; [reflexivity|].
  cbn [map]. unfold call_event at 1. rewrite sends_send, IH. reflexivity.
Qed.

Lemma sends_lines (ros : list (jsstring * outcome)) :
  sends (map line_event ros) = [].
Proof.
  induction ros as [|ro ros IH]; [reflexivity|].
  cbn [map]. unfold line_event at 1. rewrite sends_report. exact IH.
Qed.

Lemma fst_combine {A B} (xs : list A) (ys : list B) :
  List.length ys = List.length xs -> map fst (combine xs ys) = xs.
Proof.
  revert ys. induction xs as [|x xs IH]; intros [|y ys] Hlen;
    try discriminate; [reflexivity|].
  simpl. rewrite IH; [reflexivity|]. simpl in Hlen. congruence.
Qed.

Lemma logged_fan_out (ros : list (jsstring * outcome)) :
  logged (map (call_event cfg subj msg isHtml) ros ++ map line_event ros).
Proof.
  intros m error Hin. apply in_or_app. right.
  apply in_app_or in Hin. destruct Hin as [Hin|Hin].
  - apply in_map_iff in Hin. destruct Hin as [[r o] [Heq Hin]].
    unfold call_event in Heq. cbn [fst snd] in Heq.
    injection Heq as <- ->. unfold mail_for. rewrite to_mailOptions.
    apply in_map_iff. exists (r, Failed error). split; [reflexivity | exact Hin].
  - apply in_map_iff in Hin. destruct Hin as [[r o] [Heq _]].
    unfold line_event in Heq. destruct o; discriminate.
Qed.

(** The parallel pass: every recipient is attempted again, in list order,
    and every promise of the list fulfils. *)
Lemma fan_out_run (recipients : list jsstring) (t : trace) :
  exists evs,
    fan_out h cfg recipients subj msg isHtml t = (Fulfilled tt, t ++ evs)
    /\ sends evs = map (mail_for cfg subj msg isHtml) recipients
    /\ logged evs.
Proof.
  destruct (fan_out_shape recipients t) as [os [Hlen Hrun]].
  eexists. split; [exact Hrun|]. split; [|apply logged_fan_out].
  rewrite sends_app, sends_calls, sends_lines, app_nil_r, (fst_combine _ _ Hlen).
  reflexivity.
Qed.

(** Both passes together. *)
Lemma deliver_run (recipients : list jsstring) (t : trace) :
  exists evs,
    deliver h cfg recipients subj msg isHtml t = (Fulfilled tt, t ++ evs)
    /\ sends evs = map (mail_for cfg subj msg isHtml) recipients ++ map (mail_for cfg subj msg isHtml) recipients
    /\ logged evs.
Proof.
  unfold deliver.
  destruct (loop_run recipients t) as [evs1 [Hrun1 [Hsends1 Hlogged1]]].
  rewrite (bind_fulfilled _ _ _ _ _ Hrun1).
  destruct (fan_out_run recipients (t ++ evs1)) as [evs2 [Hrun2 [Hsends2 Hlogged2]]].
  rewrite Hrun2.
  exists (evs1 ++ evs2). repeat split.
  - rewrite app_assoc. reflexivity.
  - rewrite sends_app, Hsends1, Hsends2. reflexivity.
  - apply logged_app; assumption.
Qed.

Lemma map_to_mail (recipients : list jsstring) :
  map to (map (mail_for cfg subj msg isHtml) recipients) = map trim recipients.
Proof.
  rewrite map_map. apply map_ext. intros r. apply to_mailOptions.
Qed.

End Delivery.

(** ** The loaders *)

Section Loaders.

Variable h : Host.

Lemma readEmailsFromTxt_run (file : jsstring) (t : trace) :
  readEmailsFromTxt h file t =
  (match readFile h file with
   | FileData data =>
       Fulfilled (filter (fun email => truthy_string (trim email)) (split 10 data))
   | FileError err => Rejected (ThrownString (lit "Error reading file: " ++ err))
   end, t ++ [ReadFile file]).
Proof.
  unfold readEmailsFromTxt, bind, emit.
  destruct (readFile h file); reflexivity.
Qed.

Lemma readEmailsFromCsv_trace (file : jsstring) (t : trace) :
  snd (readEmailsFromCsv h file t) = t ++ [ReadStream file].
Proof.
  unfold readEmailsFromCsv, bind, emit.
  destruct (csv h file) as [rows []]; reflexivity.
Qed.

Lemma silent_ret {A} (a : A) : silent (ret a).
Proof. intros t. reflexivity. Qed.

Lemma silent_reject {A} (r : thrown) : silent (@reject A r).
Proof. intros t. reflexivity. Qed.

Lemma silent_bind {A B} (m : M A) (k : A -> M B) :
  silent m -> (forall a, silent (k a)) -> silent (bind m k).
Proof.
  intros Hm Hk t. unfold bind. specialize (Hm t).
  destruct (m t) as [[a|r|e] t']; simpl in Hm; subst t'; [apply Hk | reflexivity..].
Qed.

Lemma silent_try_catch {A} (body : M A) (handler : thrown -> M A) :
  silent body -> (forall e, silent (handler e)) -> silent (try_catch body handler).
Proof.
  intros Hb Hh t. unfold try_catch. specialize (Hb t).
  destruct (body t) as [[a|r|e] t']; simpl in Hb; subst t'; [reflexivity | apply Hh | reflexivity].
Qed.

Lemma silent_map_M {A B} (f : A -> M B) (xs : list A) :
  (forall x, silent (f x)) -> silent (map_M f xs).
Proof.
  intros Hf. induction xs as [|x xs IH]; simpl; [apply silent_ret|].
  apply silent_bind; [apply Hf|]. intros y.
  apply silent_bind; [exact IH|]. intros ys. apply silent_ret.
Qed.

Lemma silent_get_email (r : json) : silent (get_email r).
Proof. destruct r; intros t; reflexivity. Qed.

Lemma silent_call_trim (v : option json) : silent (call_trim v).
Proof. destruct v as [[]|]; intros t; reflexivity. Qed.

Lemma silent_parse (data : jsstring) : silent (parse h data).
Proof. unfold parse. destruct (JSON_parse h data); intros t; reflexivity. Qed.

Lemma silent_json_map {B} (v : json) (f : json -> M B) :
  (forall r, silent (f r)) -> silent (json_map v f).
Proof.
  intros Hf. destruct v; try (intros t; reflexivity).
  apply silent_map_M, Hf.
Qed.

Lemma readEmailsFromJson_trace (file : jsstring) (t : trace) :
  snd (readEmailsFromJson h file t) = t ++ [ReadFile file].
Proof.
  unfold readEmailsFromJson. unfold bind at 1. unfold emit at 1.
  destruct (readFile h file) as [data|err]; [|reflexivity].
  apply silent_try_catch.
  - apply silent_bind; [apply silent_parse|]. intros v.
    apply silent_bind; [|intros ys; apply silent_ret].
    apply silent_json_map. intros r.
    apply silent_bind; [apply silent_get_email | apply silent_call_trim].
  - intros e. apply silent_reject.
Qed.

(** Reading [r.email.trim()] off one element either gives a string or throws
    an [Error]; it throws on an object without the property. *)
Lemma element_email (r : json) (t : trace) :
  (exists s, (email <- get_email r ;; call_trim email) t = (Fulfilled s, t))
  \/ (exists e, (email <- get_email r ;; call_trim email) t
                = (Rejected (ThrownError e), t)).
Proof.
  destruct r as [| | | |items|members]; simpl;
    try (right; eexists; reflexivity).
  unfold bind, get_email, ret.
  destruct (property (lit "email") members) as [[]|]; simpl;
    try (right; eexists; reflexivity).
  left. eexists. reflexivity.
Qed.

Lemma element_lacking_email (r : json) (t : trace) :
  lacks_email r = true ->
  exists e, (email <- get_email r ;; call_trim email) t
            = (Rejected (ThrownError e), t).
Proof.
  destruct r as [| | | |items|members]; simpl; try discriminate.
  unfold bind, get_email, ret.
  destruct (property (lit "email") members); [discriminate|].
  intros _. eexists. reflexivity.
Qed.

Lemma element_string_email (r : json) (t : trace) :
  has_string_email r = true ->
  exists s, (email <- get_email r ;; call_trim email) t = (Fulfilled (trim s), t)
            /\ json_spec [r] = filter truthy_string [trim s].
Proof.
  destruct r as [| | | |items|members]; simpl; try discriminate.
  unfold bind, get_email, ret.
  destruct (property (lit "email") members) as [[]|]; try discriminate.
  intros _. exists s. split; [reflexivity|].
  destruct (truthy_string (trim s)); reflexivity.
Qed.

(** The map stops at the first element that throws. *)
Lemma map_lacking_email (items : list json) (t : trace) :
  existsb lacks_email items = true ->
  exists e, map_M (fun r => email <- get_email r ;; call_trim email) items t
            = (Rejected (ThrownError e), t).
Proof.
  induction items as [|r items IH]; simpl; [discriminate|].
  intros Hex. destruct (element_email r t) as [[s Hs]|[e He]].
  - rewrite (bind_fulfilled _ _ _ _ _ Hs).
    destruct (lacks_email r) eqn:Hr.
    + destruct (element_lacking_email r t Hr) as [e He]. congruence.
    + simpl in Hex. destruct (IH Hex) as [e He].
      exists e. rewrite (bind_rejected _ _ _ _ _ He). reflexivity.
  - exists e. rewrite (bind_rejected _ _ _ _ _ He). reflexivity.
Qed.

Lemma json_spec_cons (r : json) (items : list json) :
  json_spec (r :: items) = json_spec [r] ++ json_spec items.
Proof.
  destruct r as [| | | |xs|members]; simpl; try reflexivity.
  destruct (property (lit "email") members) as [[]|]; simpl; try reflexivity.
  destruct (truthy_string (trim s)); reflexivity.
Qed.

Lemma map_string_emails (items : list json) (t : trace) :
  forallb has_string_email items = true ->
  exists trimmed,
    map_M (fun r => email <- get_email r ;; call_trim email) items t
    = (Fulfilled trimmed, t)
    /\ filter truthy_string trimmed = json_spec items.
Proof.
  induction items as [|r items IH]; cbn [map_M forallb].
  - intros _. exists []. split; reflexivity.
  - intros Hall. apply andb_prop in Hall. destruct Hall as [Hr Hrest].
    destruct (element_string_email r t Hr) as [s [Hs Hspec]].
    destruct (IH Hrest) as [trimmed [Hrun Hfilter]].
    exists (trim s :: trimmed).
    rewrite (bind_fulfilled _ _ _ _ _ Hs), (bind_fulfilled _ _ _ _ _ Hrun).
    split; [reflexivity|].
    rewrite json_spec_cons, Hspec, <- Hfilter.
    simpl. destruct (truthy_string (trim s)); reflexivity.
Qed.

(** When every element is an object with a string [email], the loader
    returns what the specification describes. *)
Lemma readEmailsFromJson_string_emails (file data : jsstring)
    (items : list json) (t : trace) :
  readFile h file = FileData data ->
  JSON_parse h data = Parsed (JArray items) ->
  forallb has_string_email items = true ->
  readEmailsFromJson h file t = (Fulfilled (json_spec items), t ++ [ReadFile file]).
Proof.
  intros Hfile Hparse Hall.
  unfold readEmailsFromJson. unfold bind at 1. unfold emit at 1.
  rewrite Hfile. unfold try_catch.
  assert (Hp : parse h data (t ++ [ReadFile file])
               = (Fulfilled (JArray items), t ++ [ReadFile file])).
  { unfold parse. rewrite Hparse. reflexivity. }
  rewrite (bind_fulfilled _ _ _ _ _ Hp). simpl json_map.
  destruct (map_string_emails items (t ++ [ReadFile file]) Hall)
    as [trimmed [Hrun Hfilter]].
  rewrite (bind_fulfilled _ _ _ _ _ Hrun). unfold ret. rewrite Hfilter.
  reflexivity.
Qed.

End Loaders.

(** ** The pipeline *)

Section Pipeline.

Variable h : Host.
Variable cfg : Config.

Lemma bind_ret_trace {A B} (m : M A) (f : A -> B) (t : trace) :
  snd (bind m (fun a => ret (f a)) t) = snd (m t).
Proof. unfold bind. destruct (m t) as [[a|r|e] t']; reflexivity. Qed.

Lemma sends_read (ev : event) (t : trace) :
  (exists f, ev = ReadFile f \/ ev = ReadStream f) -> sends (t ++ [ev]) = sends t.
Proof.
  intros [f [-> | ->]]; rewrite sends_app; simpl; apply app_nil_r.
Qed.

(** Loading the recipients calls the transport for nobody. *)
Lemma load_sends (targetFilePath singleEmail : option jsstring) (t : trace) :
  sends (snd (load h targetFilePath singleEmail t)) = sends t.
Proof.
  unfold load. destruct (truthy singleEmail); [reflexivity|].
  destruct targetFilePath as [file|]; [|reflexivity].
  destruct (eqb (extname h file) (lit ".txt")).
  { rewrite bind_ret_trace, readEmailsFromTxt_run. simpl snd.
    apply sends_read. eauto. }
  destruct (eqb (extname h file) (lit ".csv")).
  { rewrite bind_ret_trace, readEmailsFromCsv_trace. apply sends_read. eauto. }
  destruct (eqb (extname h file) (lit ".json")).
  { rewrite bind_ret_trace, readEmailsFromJson_trace. apply sends_read. eauto. }
  unfold bind, emit, unsupported_format, ret. simpl snd.
  rewrite sends_app. simpl. apply app_nil_r.
Qed.

(** The transport calls of a whole run: none, or two per recipient. *)
Lemma sendEmails_sends (targetFilePath singleEmail : option jsstring)
    (subj : option jsstring) (msg : jsstring) (isHtml : bool) (t : trace) :
  exists recipients,
    sends (snd (sendEmails h cfg targetFilePath singleEmail subj msg isHtml t)) =
    sends t
    ++ map (mail_for cfg subj msg isHtml) recipients
    ++ map (mail_for cfg subj msg isHtml) recipients.
Proof.
  unfold sendEmails, bind.
  pose proof (load_sends targetFilePath singleEmail t) as Hload.
  destruct (load h targetFilePath singleEmail t) as [[[recipients|]|r|e] t1];
    simpl in Hload; try (exists []; simpl; rewrite app_nil_r; exact Hload).
  destruct (deliver_run h cfg subj msg isHtml recipients t1)
    as [evs [Hrun [Hsends _]]].
  exists recipients. rewrite Hrun. simpl snd.
  rewrite sends_app, Hsends, Hload. reflexivity.
Qed.

End Pipeline.

Lemma supported_false (ext : jsstring) :
  supported ext = false ->
  eqb ext (lit ".txt") = false /\ eqb ext (lit ".csv") = false
  /\ eqb ext (lit ".json") = false.
Proof.
  unfold supported. intros H.
  apply orb_false_elim in H. destruct H as [H Hjson].
  apply orb_false_elim in H. destruct H as [Htxt Hcsv].
  repeat split; assumption.
Qed.

Lemma eqb_eq (a b : jsstring) : eqb a b = true <-> a = b.
Proof.
  revert b. induction a as [|x a IH]; intros [|y b]; simpl;
    try (split; [discriminate | discriminate]); [split; reflexivity|].
  rewrite andb_true_iff, N.eqb_eq, IH. split.
  - intros [-> ->]. reflexivity.
  - intros Heq. injection Heq as -> ->. split; reflexivity.
Qed.

(** [supported] says that the extension is one of the three. *)
Lemma supported_iff (ext : jsstring) :
  supported ext = true <->
  ext = lit ".txt" \/ ext = lit ".csv" \/ ext = lit ".json".
Proof.
  unfold supported. rewrite !orb_true_iff, !eqb_eq. tauto.
Qed.

(** C1. One run of the delivery code hands every recipient of the list to
    the transport twice, not once: the trimmed addresses in list order by the
    loop, then all of them again, in list order, by the [Promise.all]. *)
Theorem deliver_attempts_each_twice (h : Host) (cfg : Config)
    (recipients : list jsstring) (subj : option jsstring) (msg : jsstring)
    (isHtml : bool) :
  map to (sends (snd (deliver h cfg recipients subj msg isHtml []))) =
  map trim recipients ++ map trim recipients.
Proof.
  destruct (deliver_run h cfg subj msg isHtml recipients [])
    as [evs [Hrun [Hsends _]]].
  rewrite Hrun. simpl snd. simpl app.
  rewrite Hsends, map_app, map_to_mail. reflexivity.
Qed.

(** A single address given on the command line is sent to twice. *)
Example single_address_sent_twice :
  map to (sends (snd (sendEmails (table_host [] [] always_delivers) no_options
                        None (Some (lit "a@x.com")) None (lit "hello") false [])))
  = [lit "a@x.com"; lit "a@x.com"].
Proof. vm_compute. reflexivity. Qed.

(** A loop over a list in two parts goes through the first part, then
    through the second, unless the first part leaves it. *)
Lemma for_of_app {A} (xs ys : list A) (body : A -> M unit) (t : trace) :
  for_of (xs ++ ys) body t
  = match for_of xs body t with
    | (Fulfilled _, t1) => for_of ys body t1
    | stopped => stopped
    end.
Proof.
  revert t. induction xs as [|x xs IH]; intros t; [reflexivity|].
  cbn [app for_of]. unfold bind.
  destruct (body x t) as [[[]|r|e] t1]; [apply IH | reflexivity..].
Qed.

(** C2. When the transport fails for a recipient in the loop, the failure
    is caught and written to the console, the loop waits and goes on: it
    attempts every recipient that follows, in list order, and runs to its
    end, and the run fulfils. Here the recipient is [rk], after the
    recipients [pre] and before the recipients [post]. *)
Theorem failure_does_not_stop_delivery (h : Host) (cfg : Config)
    (pre : list jsstring) (rk : jsstring) (post : list jsstring)
    (subj : option jsstring) (msg : jsstring) (isHtml : bool)
    (error : js_error) (t : trace) :
  sendMail h (snd (throttled_loop h cfg pre subj msg isHtml t))
    (mailOptions cfg (trim rk) subj msg isHtml) = Failed error ->
  exists later again,
    throttled_loop h cfg (pre ++ rk :: post) subj msg isHtml t
    = (Fulfilled tt,
       snd (throttled_loop h cfg pre subj msg isHtml t)
       ++ [SendMail (mailOptions cfg (trim rk) subj msg isHtml) (Failed error);
           log_error (trim rk) (ThrownError error);
           Wait 500]
       ++ later)
    /\ sends later = map (mail_for cfg subj msg isHtml) post
    /\ deliver h cfg (pre ++ rk :: post) subj msg isHtml t
       = (Fulfilled tt,
          snd (throttled_loop h cfg pre subj msg isHtml t)
          ++ [SendMail (mailOptions cfg (trim rk) subj msg isHtml) (Failed error);
              log_error (trim rk) (ThrownError error);
              Wait 500]
          ++ later ++ again).
Proof.
  intros Hfail.
  destruct (loop_run h cfg subj msg isHtml pre t) as [evs0 [Hpre _]].
  assert (Hloop : forall later,
    throttled_loop h cfg post subj msg isHtml
      (((t ++ evs0)
        ++ [SendMail (mailOptions cfg (trim rk) subj msg isHtml) (Failed error);
            report (trim rk) (Failed error)]) ++ [Wait 500])
    = (Fulfilled tt,
       (((t ++ evs0)
         ++ [SendMail (mailOptions cfg (trim rk) subj msg isHtml) (Failed error);
             report (trim rk) (Failed error)]) ++ [Wait 500]) ++ later) ->
    throttled_loop h cfg (pre ++ rk :: post) subj msg isHtml t
    = (Fulfilled tt,
       snd (throttled_loop h cfg pre subj msg isHtml t)
       ++ [SendMail (mailOptions cfg (trim rk) subj msg isHtml) (Failed error);
           log_error (trim rk) (ThrownError error);
           Wait 500]
       ++ later)).
  { intros later Hpost. rewrite Hpre in *. cbn [snd] in *.
    unfold throttled_loop in *. rewrite for_of_app, Hpre.
    cbn [for_of]. unfold bind at 1. unfold bind at 1.
    rewrite sendEmail_run, Hfail. unfold emit at 1.
    rewrite Hpost. cbn [report]. rewrite <- !app_assoc. reflexivity. }
  destruct (loop_run h cfg subj msg isHtml post
              (((t ++ evs0)
                ++ [SendMail (mailOptions cfg (trim rk) subj msg isHtml)
                      (Failed error);
                    report (trim rk) (Failed error)]) ++ [Wait 500]))
    as [later [Hpost [Hsends _]]].
  specialize (Hloop later Hpost).
  destruct (fan_out_run h cfg subj msg isHtml (pre ++ rk :: post)
              (snd (throttled_loop h cfg pre subj msg isHtml t)
               ++ [SendMail (mailOptions cfg (trim rk) subj msg isHtml)
                     (Failed error);
                   log_error (trim rk) (ThrownError error);
                   Wait 500]
               ++ later)) as [again [Hfan _]].
  exists later, again. split; [exact Hloop|]. split; [exact Hsends|].
  unfold deliver. rewrite (bind_fulfilled _ _ _ _ _ Hloop), Hfan.
  rewrite <- !app_assoc. reflexivity.
Qed.

Lemma failure_does_not_stop_delivery_witness :
  let h := table_host [] [] always_fails in
  let ma := mailOptions no_options (lit "a@x.com") None (lit "hello") false in
  let mb := mailOptions no_options (lit "b@x.com") None (lit "hello") false in
  exists later,
    throttled_loop h no_options [lit "a@x.com"; lit "b@x.com"] None
      (lit "hello") false []
    = (Fulfilled tt,
       [SendMail ma (Failed connection_refused);
        log_error (lit "a@x.com") (ThrownError connection_refused);
        Wait 500] ++ later)
    /\ sends later = [mb].
Proof.
  intros h ma mb.
  destruct (failure_does_not_stop_delivery h no_options [] (lit "a@x.com")
              [lit "b@x.com"] None (lit "hello") false connection_refused []
              eq_refl) as [later [again [Hloop [Hsends _]]]].
  exists later. split; [exact Hloop | exact Hsends].
Defined.

(** C10. Every address that a run hands to the transport in the [to] field
    is trimmed: it neither starts nor ends with whitespace, whatever the
    loader returned. *)
Theorem transport_recipients_trimmed (h : Host) (cfg : Config)
    (targetFilePath singleEmail : option jsstring) (subj : option jsstring)
    (msg : jsstring) (isHtml : bool) (t : trace) :
  exists attempts,
    sends (snd (sendEmails h cfg targetFilePath singleEmail subj msg isHtml t))
    = sends t ++ attempts
    /\ Forall (fun m => trimmed (to m)) attempts.
Proof.
  destruct (sendEmails_sends h cfg targetFilePath singleEmail subj msg isHtml t)
    as [recipients Hsends].
  eexists. split; [exact Hsends|].
  apply Forall_app. split; apply Forall_forall; intros m Hin;
    apply in_map_iff in Hin; destruct Hin as [r [<- _]];
    unfold mail_for; rewrite to_mailOptions; apply trim_trimmed.
Qed.

(** A text file with padded lines and CR LF line ends: the loader keeps the
    padding, the transport gets the bare addresses. *)
Example padded_lines_reach_transport_trimmed :
  let file := lit "list.txt" in
  let data := lit " a@x.com " ++ [13; 10; 13; 10] ++ lit "b@x.com" ++ [13; 10] in
  let h := table_host [(file, data)] [] always_delivers in
  fst (readEmailsFromTxt h file [])
  = Fulfilled [lit " a@x.com " ++ [13]; lit "b@x.com" ++ [13]]
  /\ map to (sends (snd (sendEmails h no_options (Some file) None None
                           (lit "hello") false [])))
     = [lit "a@x.com"; lit "b@x.com"; lit "a@x.com"; lit "b@x.com"].
Proof. vm_compute. split; reflexivity. Qed.

Lemma map_fixed {A} (f : A -> A) (l : list A) :
  map f l = l <-> Forall (fun x => f x = x) l.
Proof.
  induction l as [|x l IH]; simpl.
  - split; [constructor | reflexivity].
  - split.
    + intros Heq. injection Heq as Hx Hl. constructor; [exact Hx | apply IH, Hl].
    + intros Hall. inversion Hall as [|? ? Hx Hl]; subst.
      rewrite Hx. f_equal. apply IH, Hl.
Qed.

Lemma Forall_filter_nonblank (P : jsstring -> Prop) (lines : list jsstring) :
  Forall P (filter (fun line => negb (blank line)) lines)
  <-> Forall (fun line => blank line = true \/ P line) lines.
Proof.
  induction lines as [|l lines IH]; simpl.
  - split; constructor.
  - destruct (blank l) eqn:Hl; simpl.
    + rewrite IH. split.
      * intros Hall. constructor; [left; exact Hl | exact Hall].
      * intros Hall. inversion Hall; assumption.
    + split.
      * intros Hall. inversion Hall as [|? ? Hx Hrest]; subst.
        constructor; [right; exact Hx | apply IH, Hrest].
      * intros Hall. inversion Hall as [|? ? Hx Hrest]; subst.
        constructor; [destruct Hx as [Hx|Hx]; [congruence | exact Hx]
                     | apply IH, Hrest].
Qed.

(** C5. The text loader returns the lines that are not blank or
    whitespace-only, in file order, as they stand in the file: it does not
    trim them. Its result is the list the claim describes exactly when no
    such line has whitespace at an end. *)
Theorem txt_loader_returns_lines_untrimmed (h : Host) (file data : jsstring)
    (t : trace) :
  readFile h file = FileData data ->
  fst (readEmailsFromTxt h file t)
  = Fulfilled (filter (fun line => negb (blank line)) (split 10 data))
  /\ (fst (readEmailsFromTxt h file t) = Fulfilled (txt_spec data)
      <-> Forall (fun line => blank line = true \/ trim line = line)
            (split 10 data)).
Proof.
  intros Hfile.
  assert (Hrun : fst (readEmailsFromTxt h file t)
                 = Fulfilled (filter (fun line => negb (blank line))
                                (split 10 data))).
  { rewrite readEmailsFromTxt_run, Hfile. cbn [fst]. f_equal.
    apply filter_ext. intros line. apply truthy_trim. }
  split; [exact Hrun|].
  rewrite Hrun, <- Forall_filter_nonblank, <- map_fixed. unfold txt_spec.
  split.
  - intros Heq. injection Heq as Heq. symmetry. exact Heq.
  - intros Heq. rewrite Heq. reflexivity.
Qed.

Lemma txt_loader_returns_lines_untrimmed_witness :
  let file := lit "list.txt" in
  let data := lit " a@x.com " ++ [10] ++ lit "b@x.com" in
  let h := table_host [(file, data)] [] always_delivers in
  fst (readEmailsFromTxt h file [])
  = Fulfilled [lit " a@x.com "; lit "b@x.com"]
  /\ txt_spec data = [lit "a@x.com"; lit "b@x.com"].
Proof.
  intros file data h. split; [|reflexivity].
  exact (proj1 (txt_loader_returns_lines_untrimmed h file data [] eq_refl)).
Defined.

(** The loader's result is not the trimmed list for every file: a line
    with spaces around the address is returned with its spaces. *)
Lemma txt_loader_does_not_trim :
  ~ (forall (h : Host) (file data : jsstring) (t : trace),
       readFile h file = FileData data ->
       fst (readEmailsFromTxt h file t) = Fulfilled (txt_spec data)).
Proof.
  intros Hclaim.
  specialize (Hclaim
    (table_host [(lit "list.txt", lit " a@x.com ")] [] always_delivers)
    (lit "list.txt") (lit " a@x.com ") [] eq_refl).
  vm_compute in Hclaim. discriminate Hclaim.
Qed.

(** The end-to-end scenario of the specification: [a@x.com], a blank line,
    [b@x.com]. *)
Example txt_scenario :
  let file := lit "list.txt" in
  let data := lit "a@x.com" ++ [10; 10] ++ lit "b@x.com" in
  let h := table_host [(file, data)] [] always_delivers in
  fst (readEmailsFromTxt h file []) = Fulfilled [lit "a@x.com"; lit "b@x.com"].
Proof. vm_compute. reflexivity. Qed.

(** C6. On a JSON array in which some object has no [email] property the
    loader does not skip that object: reading [trim] off the missing value
    throws, and the whole load rejects with a parse error. *)
Theorem json_missing_email_rejects (h : Host) (file data : jsstring)
    (items : list json) (t : trace) :
  readFile h file = FileData data ->
  JSON_parse h data = Parsed (JArray items) ->
  existsb lacks_email items = true ->
  exists e,
    readEmailsFromJson h file t =
    (Rejected (ThrownString (lit "Error parsing JSON: " ++ error_toString e)),
     t ++ [ReadFile file]).
Proof.
  intros Hfile Hparse Hlacks.
  unfold readEmailsFromJson. unfold bind at 1. unfold emit at 1.
  rewrite Hfile. unfold try_catch.
  assert (Hp : parse h data (t ++ [ReadFile file])
               = (Fulfilled (JArray items), t ++ [ReadFile file])).
  { unfold parse. rewrite Hparse. reflexivity. }
  rewrite (bind_fulfilled _ _ _ _ _ Hp). simpl json_map.
  destruct (map_lacking_email items (t ++ [ReadFile file]) Hlacks) as [e He].
  rewrite (bind_rejected _ _ _ _ _ He).
  exists e. reflexivity.
Qed.

Lemma json_missing_email_rejects_witness :
  let file := lit "list.json" in
  let data := lit "[{" ++ quoted (lit "email") ++ lit ":"
              ++ quoted (lit "a@x.com") ++ lit "},{" ++ quoted (lit "name")
              ++ lit ":" ++ quoted (lit "bob") ++ lit "}]" in
  let items := [JObject [(lit "email", JString (lit "a@x.com"))];
                JObject [(lit "name", JString (lit "bob"))]] in
  let h := table_host [(file, data)] [(data, JArray items)] always_delivers in
  json_spec items = [lit "a@x.com"]
  /\ exists e,
       readEmailsFromJson h file [] =
       (Rejected (ThrownString (lit "Error parsing JSON: " ++ error_toString e)),
        [ReadFile file]).
Proof.
  intros file data items h. split; [reflexivity|].
  exact (json_missing_email_rejects h file data items [] eq_refl eq_refl eq_refl).
Defined.

(** C7, as the code has it. With no single address and a targets path
    whose extension is none of [.txt], [.csv], [.json], nothing fails: the
    run writes the unsupported-format line to the console and returns, its
    promise fulfilled; no file is opened and the transport is called for
    nobody. *)
Theorem unsupported_extension_stops_run (h : Host) (cfg : Config)
    (targetFilePath : jsstring) (singleEmail : option jsstring)
    (subj : option jsstring) (msg : jsstring) (isHtml : bool) (t : trace) :
  truthy singleEmail = false ->
  supported (extname h targetFilePath) = false ->
  load h (Some targetFilePath) singleEmail t = (Fulfilled None, t ++ [unsupported_format])
  /\ sendEmails h cfg (Some targetFilePath) singleEmail subj msg isHtml t
     = (Fulfilled tt, t ++ [unsupported_format])
  /\ reads (t ++ [unsupported_format]) = reads t
  /\ sends (t ++ [unsupported_format]) = sends t.
Proof.
  intros Hsingle Hext.
  destruct (supported_false _ Hext) as [Htxt [Hcsv Hjson]].
  assert (Hload : load h (Some targetFilePath) singleEmail t
                  = (Fulfilled None, t ++ [unsupported_format])).
  { unfold load. rewrite Hsingle, Htxt, Hcsv, Hjson. reflexivity. }
  repeat split.
  - exact Hload.
  - unfold sendEmails. rewrite (bind_fulfilled _ _ _ _ _ Hload). reflexivity.
  - rewrite reads_app. simpl. apply app_nil_r.
  - rewrite sends_app. simpl. apply app_nil_r.
Qed.

Lemma unsupported_extension_stops_run_witness :
  let h := table_host [(lit "targets.xml", lit "a@x.com")] [] always_delivers in
  sendEmails h no_options (Some (lit "targets.xml")) None None (lit "hello")
    false []
  = (Fulfilled tt, [unsupported_format]).
Proof.
  intros h.
  exact (proj1 (proj2
    (unsupported_extension_stops_run h no_options (lit "targets.xml") None None
       (lit "hello") false [] eq_refl eq_refl))).
Defined.

(** C7, as stated, fails: on an unsupported extension the loading does not
    fail, it fulfils without a list. *)
Lemma unsupported_extension_does_not_fail :
  ~ (forall (h : Host) (file : jsstring) (singleEmail : option jsstring)
            (t : trace),
       truthy singleEmail = false ->
       supported (extname h file) = false ->
       forall loaded, fst (load h (Some file) singleEmail t) <> Fulfilled loaded).
Proof.
  intros Hclaim.
  apply (Hclaim (table_host [] [] always_delivers) (lit "targets.xml") None []
           eq_refl eq_refl None).
  reflexivity.
Qed.

(** Node's examples for [path.extname]. *)
Example posix_extname_examples :
  posix_extname (lit "index.html") = lit ".html"
  /\ posix_extname (lit "index.coffee.md") = lit ".md"
  /\ posix_extname (lit "index.") = lit "."
  /\ posix_extname (lit "index") = lit ""
  /\ posix_extname (lit ".index") = lit ""
  /\ posix_extname (lit ".index.md") = lit ".md"
  /\ posix_extname (lit "/tmp/lists/a.txt/") = lit ".txt"
  /\ posix_extname (lit "..") = lit "".
Proof. vm_compute. repeat split. Qed.

(** ** The shape of a delivery *)

Section Shape.

Variable h : Host.
Variable cfg : Config.
Variable subj : option jsstring.
Variable msg : jsstring.
Variable isHtml : bool.

Lemma waits_app (t1 t2 : trace) : waits (t1 ++ t2) = waits t1 ++ waits t2.
Proof.
  induction t1 as [|e t1 IH]; simpl; [reflexivity|].
  destruct e; simpl; rewrite IH; reflexivity.
Qed.

Lemma reads_turns (ros : list (jsstring * outcome)) :
  reads (flat_map (turn_events cfg subj msg isHtml) ros) = [].
Proof.
  induction ros as [|[r o] ros IH]; [reflexivity|].
  cbn [flat_map]. rewrite reads_app, IH. destruct o; reflexivity.
Qed.

Lemma waits_turns (ros : list (jsstring * outcome)) :
  waits (flat_map (turn_events cfg subj msg isHtml) ros)
  = repeat 500 (List.length ros).
Proof.
  induction ros as [|[r o] ros IH]; [reflexivity|].
  cbn [flat_map]. rewrite waits_app, IH. destruct o; reflexivity.
Qed.

Lemma reads_calls (ros : list (jsstring * outcome)) :
  reads (map (call_event cfg subj msg isHtml) ros) = [].
Proof. induction ros as [|ro ros IH]; [reflexivity | exact IH]. Qed.

Lemma waits_calls (ros : list (jsstring * outcome)) :
  waits (map (call_event cfg subj msg isHtml) ros) = [].
Proof. induction ros as [|ro ros IH]; [reflexivity | exact IH]. Qed.

Lemma reads_lines (ros : list (jsstring * outcome)) :
  reads (map line_event ros) = [].
Proof.
  induction ros as [|[r o] ros IH]; [reflexivity|].
  destruct o; exact IH.
Qed.

Lemma waits_lines (ros : list (jsstring * outcome)) :
  waits (map line_event ros) = [].
Proof.
  induction ros as [|[r o] ros IH]; [reflexivity|].
  destruct o; exact IH.
Qed.

(** The loop, turn by turn. *)
Lemma loop_shape (recipients : list jsstring) (t : trace) :
  exists outcomes,
    List.length outcomes = List.length recipients
    /\ throttled_loop h cfg recipients subj msg isHtml t
       = (Fulfilled tt,
          t ++ flat_map (turn_events cfg subj msg isHtml)
                 (combine recipients outcomes)).
Proof.
  unfold throttled_loop.
  revert t. induction recipients as [|r rs IH]; intros t.
  - exists []. simpl. rewrite app_nil_r. split; reflexivity.
  - cbn [for_of]. unfold bind at 1. unfold bind at 1. rewrite sendEmail_run.
    unfold emit at 1.
    set (m := mailOptions cfg (trim r) subj msg isHtml).
    set (o := sendMail h t m).
    destruct (IH ((t ++ [SendMail m o; report (trim r) o]) ++ [Wait 500]))
      as [os [Hlen Hrun]].
    exists (o :: os). split; [simpl; congruence|].
    rewrite Hrun. cbn [combine flat_map].
    rewrite <- !app_assoc. reflexivity.
Qed.

Lemma deliver_shape (recipients : list jsstring) (t : trace) :
  exists first second,
    List.length first = List.length recipients
    /\ List.length second = List.length recipients
    /\ deliver h cfg recipients subj msg isHtml t
       = (Fulfilled tt,
          t ++ flat_map (turn_events cfg subj msg isHtml)
                 (combine recipients first)
            ++ map (call_event cfg subj msg isHtml)
                 (combine recipients second)
            ++ map line_event (combine recipients second)).
Proof.
  unfold deliver.
  destruct (loop_shape recipients t) as [os1 [Hlen1 Hrun1]].
  rewrite (bind_fulfilled _ _ _ _ _ Hrun1).
  destruct (fan_out_shape h cfg subj msg isHtml recipients
              (t ++ flat_map (turn_events cfg subj msg isHtml)
                      (combine recipients os1))) as [os2 [Hlen2 Hrun2]].
  rewrite Hrun2, <- app_assoc.
  exists os1, os2. repeat split; assumption.
Qed.

Lemma deliver_reads (recipients : list jsstring) (t : trace) :
  reads (snd (deliver h cfg recipients subj msg isHtml t)) = reads t.
Proof.
  destruct (deliver_shape recipients t) as [os1 [os2 [_ [_ Hrun]]]].
  rewrite Hrun. cbn [snd].
  rewrite !reads_app, reads_turns, reads_calls, reads_lines.
  apply app_nil_r.
Qed.

Lemma deliver_fulfils (recipients : list jsstring) (t : trace) :
  fst (deliver h cfg recipients subj msg isHtml t) = Fulfilled tt.
Proof.
  destruct (deliver_shape recipients t) as [os1 [os2 [_ [_ Hrun]]]].
  rewrite Hrun. reflexivity.
Qed.

End Shape.

(** X1. A delivery is made of: for each recipient in list order, one
    transport call, the console line of its outcome and a wait of 500 ms;
    then one more transport call for each recipient in list order; and only
    after all of these the console lines of those second calls, one per
    call, in the order in which the transport settles them. *)
Theorem delivery_trace_shape (h : Host) (cfg : Config)
    (recipients : list jsstring) (subj : option jsstring) (msg : jsstring)
    (isHtml : bool) (t : trace) :
  exists first second lines,
    List.length first = List.length recipients
    /\ List.length second = List.length recipients
    /\ Permutation lines (map line_event (combine recipients second))
    /\ snd (deliver h cfg recipients subj msg isHtml t)
       = t ++ flat_map (turn_events cfg subj msg isHtml)
                (combine recipients first)
           ++ map (call_event cfg subj msg isHtml) (combine recipients second)
           ++ lines.
Proof.
  destruct (deliver_shape h cfg subj msg isHtml recipients t)
    as [os1 [os2 [Hlen1 [Hlen2 Hrun]]]].
  exists os1, os2, (map line_event (combine recipients os2)).
  rewrite Hrun. repeat split; try assumption. apply Permutation_refl.
Qed.

(** X2. A delivery waits 500 ms once per recipient, after the last one
    too, and nowhere else. *)
Theorem delivery_waits (h : Host) (cfg : Config)
    (recipients : list jsstring) (subj : option jsstring) (msg : jsstring)
    (isHtml : bool) (t : trace) :
  waits (snd (deliver h cfg recipients subj msg isHtml t))
  = waits t ++ repeat 500 (List.length recipients).
Proof.
  destruct (deliver_shape h cfg subj msg isHtml recipients t)
    as [os1 [os2 [Hlen1 [Hlen2 Hrun]]]].
  rewrite Hrun. cbn [snd].
  rewrite !waits_app, waits_turns, waits_calls, waits_lines, !app_nil_r.
  rewrite length_combine, Hlen1.
  replace (Nat.min (List.length recipients) (List.length recipients))
    with (List.length recipients) by lia.
  reflexivity.
Qed.

(** ** Lines of a text *)

Lemma split_not_nil (sep : N) (s : jsstring) : split sep s <> [].
Proof.
  destruct s as [|c s]; simpl; [discriminate|].
  destruct (c =? sep); [discriminate|].
  destruct (split sep s); discriminate.
Qed.

(** No piece of a split holds the separator. *)
Lemma split_no_sep (sep : N) (s : jsstring) :
  Forall (fun piece => ~ In sep piece) (split sep s).
Proof.
  induction s as [|c s IH]; simpl.
  - constructor; [intros [] | constructor].
  - destruct (c =? sep) eqn:Hc.
    + constructor; [intros [] | exact IH].
    + destruct (split sep s) as [|piece rest]; [repeat constructor|].
      * intros [Heq|[]]. subst c. rewrite N.eqb_refl in Hc. discriminate.
      * inversion IH as [|? ? Hpiece Hrest]; subst.
        constructor; [|exact Hrest].
        intros [Heq|Hin]; [|exact (Hpiece Hin)].
        subst c. rewrite N.eqb_refl in Hc. discriminate.
Qed.

(** Every line of a whitespace-only text is whitespace-only. *)
Lemma blank_split (sep : N) (s : jsstring) :
  blank s = true -> forallb blank (split sep s) = true.
Proof.
  induction s as [|c s IH]; simpl; [reflexivity|].
  intros Hs. apply andb_prop in Hs. destruct Hs as [Hc Hs].
  specialize (IH Hs).
  destruct (c =? sep); [exact IH|].
  destruct (split sep s) as [|piece rest]; simpl in *.
  - rewrite Hc. reflexivity.
  - apply andb_prop in IH. destruct IH as [Hpiece Hrest].
    rewrite Hc, Hpiece, Hrest. reflexivity.
Qed.

Lemma filter_blank_lines (lines : list jsstring) :
  forallb blank lines = true ->
  filter (fun email => truthy_string (trim email)) lines = [].
Proof.
  induction lines as [|l lines IH]; simpl; [reflexivity|].
  intros H. apply andb_prop in H. destruct H as [Hl Hrest].
  rewrite truthy_trim, Hl. simpl. exact (IH Hrest).
Qed.

(** ** Runs by kind of source *)

Section Runs.

Variable h : Host.
Variable cfg : Config.
Variable subj : option jsstring.
Variable msg : jsstring.
Variable isHtml : bool.

Lemma sendEmails_loaded (targetFilePath singleEmail : option jsstring)
    (recipients : list jsstring) (t t1 : trace) :
  load h targetFilePath singleEmail t = (Fulfilled (Some recipients), t1) ->
  sendEmails h cfg targetFilePath singleEmail subj msg isHtml t
  = deliver h cfg recipients subj msg isHtml t1.
Proof.
  intros Hload. unfold sendEmails.
  rewrite (bind_fulfilled _ _ _ _ _ Hload). reflexivity.
Qed.

Lemma sendEmails_rejected (targetFilePath singleEmail : option jsstring)
    (r : thrown) (t t1 : trace) :
  load h targetFilePath singleEmail t = (Rejected r, t1) ->
  sendEmails h cfg targetFilePath singleEmail subj msg isHtml t
  = (Rejected r, t1).
Proof.
  intros Hload. unfold sendEmails.
  rewrite (bind_rejected _ _ _ _ _ Hload). reflexivity.
Qed.

Lemma sendEmails_crashed (targetFilePath singleEmail : option jsstring)
    (e : jsstring) (t t1 : trace) :
  load h targetFilePath singleEmail t = (Crashed e, t1) ->
  sendEmails h cfg targetFilePath singleEmail subj msg isHtml t
  = (Crashed e, t1).
Proof.
  intros Hload. unfold sendEmails.
  rewrite (bind_crashed _ _ _ _ _ Hload). reflexivity.
Qed.

Lemma load_single (targetFilePath singleEmail : option jsstring) (t : trace) :
  truthy singleEmail = true ->
  load h targetFilePath singleEmail t
  = (Fulfilled (Some [trim (string_value singleEmail)]), t).
Proof. intros Hs. unfold load. rewrite Hs. reflexivity. Qed.

Lemma load_txt (file : jsstring) (singleEmail : option jsstring) (t : trace) :
  truthy singleEmail = false ->
  extname h file = lit ".txt" ->
  load h (Some file) singleEmail t
  = (match readFile h file with
     | FileData data =>
         Fulfilled (Some (filter (fun email => truthy_string (trim email))
                            (split 10 data)))
     | FileError err =>
         Rejected (ThrownString (lit "Error reading file: " ++ err))
     end, t ++ [ReadFile file]).
Proof.
  intros Hs Hext. unfold load. rewrite Hs, Hext.
  change (eqb (lit ".txt") (lit ".txt")) with true. cbv iota.
  unfold bind. rewrite readEmailsFromTxt_run.
  destruct (readFile h file); reflexivity.
Qed.

Lemma load_csv (file : jsstring) (singleEmail : option jsstring) (t : trace) :
  truthy singleEmail = false ->
  extname h file = lit ".csv" ->
  load h (Some file) singleEmail t
  = (recipients <- readEmailsFromCsv h file ;; ret (Some recipients)) t.
Proof.
  intros Hs Hext. unfold load. rewrite Hs, Hext. reflexivity.
Qed.

Lemma load_json (file : jsstring) (singleEmail : option jsstring) (t : trace) :
  truthy singleEmail = false ->
  extname h file = lit ".json" ->
  load h (Some file) singleEmail t
  = (recipients <- readEmailsFromJson h file ;; ret (Some recipients)) t.
Proof.
  intros Hs Hext. unfold load. rewrite Hs, Hext. reflexivity.
Qed.

End Runs.

(** X3. A run on a text file hands to the transport, as [to], the
    non-blank lines of the file trimmed, in file order, and then all of them
    once more; it opens that file and no other, and it fulfils. *)
Theorem txt_run_addresses (h : Host) (cfg : Config) (file : jsstring)
    (singleEmail subj : option jsstring) (msg : jsstring) (isHtml : bool)
    (data : jsstring) (t : trace) :
  truthy singleEmail = false ->
  extname h file = lit ".txt" ->
  readFile h file = FileData data ->
  fst (sendEmails h cfg (Some file) singleEmail subj msg isHtml t) = Fulfilled tt
  /\ map to (sends (snd (sendEmails h cfg (Some file) singleEmail subj msg
                           isHtml t)))
     = map to (sends t) ++ txt_spec data ++ txt_spec data
  /\ reads (snd (sendEmails h cfg (Some file) singleEmail subj msg isHtml t))
     = reads t ++ [file].
Proof.
  intros Hs Hext Hfile.
  pose proof (load_txt h file singleEmail t Hs Hext) as Hload.
  rewrite Hfile in Hload.
  rewrite (sendEmails_loaded h cfg subj msg isHtml _ _ _ _ _ Hload).
  split; [apply deliver_fulfils|]. split.
  - destruct (deliver_run h cfg subj msg isHtml
                (filter (fun email => truthy_string (trim email)) (split 10 data))
                (t ++ [ReadFile file])) as [evs [Hrun [Hsends _]]].
    rewrite Hrun. cbn [snd].
    rewrite !sends_app, Hsends. cbn [sends]. rewrite app_nil_r.
    rewrite !map_app, map_to_mail. unfold txt_spec.
    rewrite (filter_ext _ (fun line => negb (blank line)) truthy_trim).
    reflexivity.
  - rewrite deliver_reads, reads_app. reflexivity.
Qed.

Lemma txt_run_addresses_witness :
  let file := lit "list.txt" in
  let data := lit " a@x.com" ++ [13; 10; 10] ++ lit "b@x.com" ++ [10] in
  let h := table_host [(file, data)] [] always_fails in
  map to (sends (snd (sendEmails h no_options (Some file) None None
                        (lit "hello") false [])))
  = [lit "a@x.com"; lit "b@x.com"; lit "a@x.com"; lit "b@x.com"].
Proof.
  intros file data h.
  exact (proj1 (proj2
    (txt_run_addresses h no_options file None None (lit "hello") false data []
       eq_refl eq_refl eq_refl))).
Defined.

(** X4. The text loader returns no blank entry and no entry that spans a
    line feed: every entry has a non-empty trimmed form. *)
Theorem txt_entries_nonblank (h : Host) (file data : jsstring) (t : trace) :
  readFile h file = FileData data ->
  exists recipients,
    fst (readEmailsFromTxt h file t) = Fulfilled recipients
    /\ Forall (fun r => truthy_string (trim r) = true /\ ~ In 10 r) recipients.
Proof.
  intros Hfile. rewrite readEmailsFromTxt_run, Hfile.
  eexists. split; [reflexivity|].
  apply Forall_forall. intros r Hin. apply filter_In in Hin.
  destruct Hin as [Hin Hr]. split; [exact Hr|].
  pose proof (split_no_sep 10 data) as Hsep.
  rewrite Forall_forall in Hsep. exact (Hsep r Hin).
Qed.

Lemma txt_entries_nonblank_witness :
  let file := lit "list.txt" in
  let data := lit "a@x.com " ++ [10; 32; 10] ++ lit "b@x.com" in
  let h := table_host [(file, data)] [] always_delivers in
  exists recipients,
    fst (readEmailsFromTxt h file []) = Fulfilled recipients
    /\ Forall (fun r => truthy_string (trim r) = true /\ ~ In 10 r) recipients.
Proof.
  intros file data h.
  exact (txt_entries_nonblank h file data [] eq_refl).
Defined.

(** X5. A text file that is empty or holds only whitespace gives a run that
    opens the file, calls the transport for nobody, waits for nothing and
    fulfils. *)
Theorem blank_txt_file_sends_nothing (h : Host) (cfg : Config)
    (file : jsstring) (singleEmail subj : option jsstring) (msg : jsstring)
    (isHtml : bool) (data : jsstring) (t : trace) :
  truthy singleEmail = false ->
  extname h file = lit ".txt" ->
  readFile h file = FileData data ->
  blank data = true ->
  sendEmails h cfg (Some file) singleEmail subj msg isHtml t
  = (Fulfilled tt, t ++ [ReadFile file]).
Proof.
  intros Hs Hext Hfile Hblank.
  pose proof (load_txt h file singleEmail t Hs Hext) as Hload.
  rewrite Hfile, (filter_blank_lines _ (blank_split 10 data Hblank)) in Hload.
  rewrite (sendEmails_loaded h cfg subj msg isHtml _ _ _ _ _ Hload).
  reflexivity.
Qed.

Lemma blank_txt_file_sends_nothing_witness :
  let file := lit "list.txt" in
  let data := [32; 13; 10; 9; 10] in
  let h := table_host [(file, data)] [] always_delivers in
  sendEmails h no_options (Some file) None None (lit "hello") false []
  = (Fulfilled tt, [ReadFile file]).
Proof.
  intros file data h.
  exact (blank_txt_file_sends_nothing h no_options file None None (lit "hello")
           false data [] eq_refl eq_refl eq_refl eq_refl).
Defined.

(** X6. When the text or JSON targets file cannot be read, the run rejects
    with [Error reading file: ] followed by the error, after the one
    attempt to read, and the transport is called for nobody. *)
Theorem unreadable_targets_file_rejects (h : Host) (cfg : Config)
    (file : jsstring) (singleEmail subj : option jsstring) (msg : jsstring)
    (isHtml : bool) (err : jsstring) (t : trace) :
  truthy singleEmail = false ->
  eqb (extname h file) (lit ".txt") || eqb (extname h file) (lit ".json") = true ->
  readFile h file = FileError err ->
  sendEmails h cfg (Some file) singleEmail subj msg isHtml t
  = (Rejected (ThrownString (lit "Error reading file: " ++ err)),
     t ++ [ReadFile file])
  /\ sends (t ++ [ReadFile file]) = sends t.
Proof.
  intros Hs Hext Hfile.
  split; [|apply sends_read; eauto].
  apply sendEmails_rejected.
  apply orb_prop in Hext. destruct Hext as [Hext|Hext]; apply eqb_eq in Hext.
  - rewrite (load_txt h file singleEmail t Hs Hext), Hfile. reflexivity.
  - rewrite (load_json h file singleEmail t Hs Hext).
    unfold readEmailsFromJson, bind, emit, reject. rewrite Hfile. reflexivity.
Qed.

Lemma unreadable_targets_file_rejects_witness :
  let h := table_host [] [] always_delivers in
  sendEmails h no_options (Some (lit "missing.json")) None None (lit "hello")
    false []
  = (Rejected (ThrownString (lit "Error reading file: " ++ enoent)),
     [ReadFile (lit "missing.json")]).
Proof.
  intros h.
  exact (proj1
    (unreadable_targets_file_rejects h no_options (lit "missing.json") None None
       (lit "hello") false enoent [] eq_refl eq_refl eq_refl)).
Defined.

(** X7. With a single address given, the run opens no file, whatever the
    targets path, and calls the transport twice with the message composed
    for the trimmed address; trimming again at send time changes nothing. *)
Theorem single_address_run (h : Host) (cfg : Config)
    (targetFilePath singleEmail subj : option jsstring) (msg : jsstring)
    (isHtml : bool) (t : trace) :
  truthy singleEmail = true ->
  fst (sendEmails h cfg targetFilePath singleEmail subj msg isHtml t)
  = Fulfilled tt
  /\ sends (snd (sendEmails h cfg targetFilePath singleEmail subj msg isHtml t))
     = sends t
       ++ [mailOptions cfg (trim (string_value singleEmail)) subj msg isHtml;
           mailOptions cfg (trim (string_value singleEmail)) subj msg isHtml]
  /\ reads (snd (sendEmails h cfg targetFilePath singleEmail subj msg isHtml t))
     = reads t.
Proof.
  intros Hs.
  rewrite (sendEmails_loaded h cfg subj msg isHtml _ _ _ _ _
             (load_single h targetFilePath singleEmail t Hs)).
  split; [apply deliver_fulfils|]. split; [|apply deliver_reads].
  destruct (deliver_run h cfg subj msg isHtml
              [trim (string_value singleEmail)] t) as [evs [Hrun [Hsends _]]].
  rewrite Hrun. cbn [snd]. rewrite sends_app, Hsends.
  unfold mail_for. simpl. rewrite trim_idempotent. reflexivity.
Qed.

Lemma single_address_run_witness :
  let h := table_host [] [] always_delivers in
  reads (snd (sendEmails h no_options (Some (lit "list.txt"))
                (Some (lit " a@x.com ")) None (lit "hello") false []))
  = [].
Proof.
  intros h.
  exact (proj2 (proj2
    (single_address_run h no_options (Some (lit "list.txt"))
       (Some (lit " a@x.com ")) None (lit "hello") false [] eq_refl))).
Defined.

(** X8. A run settles as the loading of its recipients does: it fulfils
    when the loading fulfils, whatever the transport answers, and rejects or
    dies with the loader's own reason; when no list is loaded, nothing
    happens after the loading. *)
Theorem run_settles_as_load (h : Host) (cfg : Config)
    (targetFilePath singleEmail subj : option jsstring) (msg : jsstring)
    (isHtml : bool) (t : trace) :
  fst (sendEmails h cfg targetFilePath singleEmail subj msg isHtml t)
  = forget (fst (load h targetFilePath singleEmail t))
  /\ match fst (load h targetFilePath singleEmail t) with
     | Fulfilled (Some _) => True
     | _ => snd (sendEmails h cfg targetFilePath singleEmail subj msg isHtml t)
            = snd (load h targetFilePath singleEmail t)
     end.
Proof.
  unfold sendEmails, bind.
  destruct (load h targetFilePath singleEmail t) as [[[recipients|]|r|e] t1];
    cbn [fst snd forget]; try (split; reflexivity).
  split; [apply deliver_fulfils | exact I].
Qed.

Section Opened.

Variable h : Host.

Lemma load_reads (targetFilePath singleEmail : option jsstring) (t : trace) :
  reads (snd (load h targetFilePath singleEmail t))
  = reads t
    ++ (if truthy singleEmail then []
        else match targetFilePath with
             | Some file => if supported (extname h file) then [file] else []
             | None => []
             end).
Proof.
  unfold load, supported. destruct (truthy singleEmail); [symmetry; apply app_nil_r|].
  destruct targetFilePath as [file|]; [|symmetry; apply app_nil_r].
  destruct (eqb (extname h file) (lit ".txt")).
  { rewrite bind_ret_trace, readEmailsFromTxt_run. cbn [snd].
    apply reads_app. }
  destruct (eqb (extname h file) (lit ".csv")).
  { rewrite bind_ret_trace, readEmailsFromCsv_trace. apply reads_app. }
  destruct (eqb (extname h file) (lit ".json")).
  { rewrite bind_ret_trace, readEmailsFromJson_trace. apply reads_app. }
  unfold bind, emit, unsupported_format, ret. cbn [snd orb].
  rewrite reads_app. reflexivity.
Qed.

End Opened.

(** X9. A run opens at most one file: the targets file, once, when no
    single address is given and the extension is one of the three; neither
    the delivery nor a single address opens any. *)
Theorem run_opens_only_targets (h : Host) (cfg : Config)
    (targetFilePath singleEmail subj : option jsstring) (msg : jsstring)
    (isHtml : bool) (t : trace) :
  reads (snd (sendEmails h cfg targetFilePath singleEmail subj msg isHtml t))
  = reads t
    ++ (if truthy singleEmail then []
        else match targetFilePath with
             | Some file => if supported (extname h file) then [file] else []
             | None => []
             end).
Proof.
  rewrite <- load_reads. unfold sendEmails, bind.
  destruct (load h targetFilePath singleEmail t) as [[[recipients|]|r|e] t1];
    cbn [snd]; try reflexivity.
  apply deliver_reads.
Qed.

(** ** The CSV loader *)

Lemma on_data_acc (rows : list csv_row) (recipients : list jsstring) :
  on_data rows recipients = recipients ++ csv_emails rows.
Proof.
  revert recipients. induction rows as [|row rows IH]; intros recipients.
  - simpl. symmetry. apply app_nil_r.
  - cbn [on_data]. rewrite IH. unfold csv_emails. cbn [flat_map].
    destruct (truthy (property (lit "email") row)).
    + rewrite <- app_assoc. reflexivity.
    + reflexivity.
Qed.

Lemma csv_emails_trimmed (rows : list csv_row) :
  Forall trimmed (csv_emails rows).
Proof.
  unfold csv_emails. apply Forall_flat_map. apply Forall_forall. intros row _.
  destruct (truthy (property (lit "email") row)); repeat constructor;
    apply trim_trimmed.
Qed.

Lemma csv_emails_length (rows : list csv_row) :
  (List.length (csv_emails rows) <= List.length rows)%nat.
Proof.
  induction rows as [|row rows IH]; [apply le_n|].
  unfold csv_emails in *. cbn [flat_map]. rewrite length_app.
  destruct (truthy (property (lit "email") row)); simpl; lia.
Qed.

(** X10. When the CSV stream ends normally, the loader returns, in row
    order, the trimmed [email] column of the rows where it is non-empty and
    skips the rows where it is empty or missing: at most one entry per row,
    each already trimmed. *)
Theorem csv_loader_result (h : Host) (file : jsstring) (rows : list csv_row)
    (t : trace) :
  csv h file = (rows, StreamEnd) ->
  readEmailsFromCsv h file t
  = (Fulfilled (csv_emails rows), t ++ [ReadStream file])
  /\ Forall trimmed (csv_emails rows)
  /\ (List.length (csv_emails rows) <= List.length rows)%nat.
Proof.
  intros Hcsv. split; [|split; [apply csv_emails_trimmed | apply csv_emails_length]].
  unfold readEmailsFromCsv, bind, emit. rewrite Hcsv.
  rewrite on_data_acc. reflexivity.
Qed.

Lemma csv_loader_result_witness :
  let rows := [[(lit "name", lit "Ann"); (lit "email", lit " a@x.com ")];
               [(lit "name", lit "Bob")];
               [(lit "name", lit "Cy"); (lit "email", lit "")];
               [(lit "email", lit "d@x.com"); (lit "name", lit "Di")]] in
  readEmailsFromCsv (csv_host rows StreamEnd) (lit "list.csv") []
  = (Fulfilled [lit "a@x.com"; lit "d@x.com"], [ReadStream (lit "list.csv")]).
Proof.
  intros rows.
  exact (proj1 (csv_loader_result (csv_host rows StreamEnd) (lit "list.csv")
                  rows [] eq_refl)).
Defined.

(** X11. When the CSV stream does not end normally, the rows read so far
    are dropped and the transport is called for nobody: on an error of the
    parser the run rejects with [Error reading CSV file: ] and the error,
    on an error of the file stream the process dies. *)
Theorem csv_failure_sends_nothing (h : Host) (cfg : Config) (file : jsstring)
    (singleEmail subj : option jsstring) (msg : jsstring) (isHtml : bool)
    (rows : list csv_row) (ending : stream_end) (t : trace) :
  truthy singleEmail = false ->
  extname h file = lit ".csv" ->
  csv h file = (rows, ending) ->
  match ending with
  | StreamEnd => True
  | ParserError err =>
      sendEmails h cfg (Some file) singleEmail subj msg isHtml t
      = (Rejected (ThrownString (lit "Error reading CSV file: " ++ err)),
         t ++ [ReadStream file])
  | SourceError err =>
      sendEmails h cfg (Some file) singleEmail subj msg isHtml t
      = (Crashed err, t ++ [ReadStream file])
  end.
Proof.
  intros Hs Hext Hcsv.
  pose proof (load_csv h file singleEmail t Hs Hext) as Hload.
  unfold readEmailsFromCsv, bind, emit in Hload. rewrite Hcsv in Hload.
  destruct ending as [|err|err]; [exact I| |].
  - apply sendEmails_rejected. exact Hload.
  - apply sendEmails_crashed. exact Hload.
Qed.

Lemma csv_failure_sends_nothing_witness :
  let rows := [[(lit "email", lit "a@x.com")]] in
  let h := csv_host rows (ParserError (lit "Error: bad row")) in
  sendEmails h no_options (Some (lit "list.csv")) None None (lit "hello")
    false []
  = (Rejected (ThrownString (lit "Error reading CSV file: Error: bad row")),
     [ReadStream (lit "list.csv")]).
Proof.
  intros rows h.
  exact (csv_failure_sends_nothing h no_options (lit "list.csv") None None
           (lit "hello") false rows (ParserError (lit "Error: bad row")) []
           eq_refl eq_refl eq_refl).
Defined.

(** ** The JSON loader *)

Section Json.

Variable h : Host.

Lemma element_without_string_email (r : json) (t : trace) :
  has_string_email r = false ->
  exists e, (email <- get_email r ;; call_trim email) t
            = (Rejected (ThrownError e), t).
Proof.
  destruct r as [| | | |items|members]; simpl;
    try (intros _; eexists; reflexivity).
  unfold bind, get_email, ret.
  destruct (property (lit "email") members) as [[]|]; simpl;
    try discriminate; intros _; eexists; reflexivity.
Qed.

Lemma map_without_string_email (items : list json) (t : trace) :
  forallb has_string_email items = false ->
  exists e, map_M (fun r => email <- get_email r ;; call_trim email) items t
            = (Rejected (ThrownError e), t).
Proof.
  induction items as [|r items IH]; cbn [forallb map_M]; [discriminate|].
  intros Hall. destruct (has_string_email r) eqn:Hr.
  - destruct (element_string_email r t Hr) as [s [Hs _]].
    rewrite (bind_fulfilled _ _ _ _ _ Hs).
    destruct (IH Hall) as [e He].
    exists e. rewrite (bind_rejected _ _ _ _ _ He). reflexivity.
  - destruct (element_without_string_email r t Hr) as [e He].
    exists e. rewrite (bind_rejected _ _ _ _ _ He). reflexivity.
Qed.

(** Whatever is wrong with the document, the loader rejects with a parse
    error. *)
Lemma readEmailsFromJson_not_loaded (file data : jsstring) (t : trace) :
  readFile h file = FileData data ->
  match JSON_parse h data with
  | Parsed (JArray items) => forallb has_string_email items = false
  | _ => True
  end ->
  exists reason,
    readEmailsFromJson h file t
    = (Rejected (ThrownString (lit "Error parsing JSON: " ++ reason)),
       t ++ [ReadFile file]).
Proof.
  intros Hfile Hbad.
  unfold readEmailsFromJson. unfold bind at 1. unfold emit at 1.
  rewrite Hfile. unfold try_catch, parse.
  destruct (JSON_parse h data) as [v|message].
  - unfold bind at 1. unfold ret at 1.
    destruct v as [| | | |items|members];
      try (eexists; reflexivity).
    simpl json_map.
    destruct (map_without_string_email items (t ++ [ReadFile file]) Hbad)
      as [e He].
    rewrite (bind_rejected _ _ _ _ _ He). eexists. reflexivity.
  - eexists. reflexivity.
Qed.

(** What a fulfilled load says of the file. *)
Lemma readEmailsFromJson_fulfilled (file : jsstring) (recipients : list jsstring)
    (t : trace) :
  fst (readEmailsFromJson h file t) = Fulfilled recipients ->
  exists data items,
    readFile h file = FileData data
    /\ JSON_parse h data = Parsed (JArray items)
    /\ forallb has_string_email items = true
    /\ recipients = json_spec items.
Proof.
  intros Hrun.
  destruct (readFile h file) as [data|err] eqn:Hfile.
  - destruct (JSON_parse h data) as [v|message] eqn:Hparse.
    + destruct v as [| | | |items|members];
        try (destruct (readEmailsFromJson_not_loaded file data t Hfile)
               as [reason Hrej];
             [rewrite Hparse; exact I | rewrite Hrej in Hrun; discriminate]).
      destruct (forallb has_string_email items) eqn:Hall.
      * rewrite (readEmailsFromJson_string_emails h file data items t
                   Hfile Hparse Hall) in Hrun.
        injection Hrun as <-. exists data, items. repeat split; assumption.
      * destruct (readEmailsFromJson_not_loaded file data t Hfile)
          as [reason Hrej];
          [rewrite Hparse; exact Hall | rewrite Hrej in Hrun; discriminate].
    + destruct (readEmailsFromJson_not_loaded file data t Hfile)
        as [reason Hrej];
        [rewrite Hparse; exact I | rewrite Hrej in Hrun; discriminate].
  - unfold readEmailsFromJson, bind, emit, reject in Hrun.
    rewrite Hfile in Hrun. discriminate.
Qed.

Lemma json_spec_entries (items : list json) :
  Forall (fun s => truthy_string s = true /\ trimmed s) (json_spec items).
Proof.
  induction items as [|r items IH]; [constructor|].
  rewrite json_spec_cons. apply Forall_app. split; [|exact IH].
  destruct r as [| | | |xs|members]; simpl; try constructor.
  destruct (property (lit "email") members) as [[]|]; try constructor.
  destruct (truthy_string (trim s)) eqn:Hs; constructor; [|constructor].
  split; [exact Hs | apply trim_trimmed].
Qed.

End Json.

(** X12. The JSON loader fulfils exactly when the document is an array
    whose every element is an object with a string [email]; its result is
    then the trimmed emails that are non-empty once trimmed, in array
    order. A number, [null] or a missing value for [email], or an element
    that is no object, fails the whole load. *)
Theorem json_loader_fulfils_iff (h : Host) (file data : jsstring) (v : json)
    (recipients : list jsstring) (t : trace) :
  readFile h file = FileData data ->
  JSON_parse h data = Parsed v ->
  fst (readEmailsFromJson h file t) = Fulfilled recipients
  <-> exists items,
        v = JArray items
        /\ forallb has_string_email items = true
        /\ recipients = json_spec items.
Proof.
  intros Hfile Hparse. split.
  - intros Hrun.
    destruct (readEmailsFromJson_fulfilled h file recipients t Hrun)
      as [data' [items [Hfile' [Hparse' [Hall Hrs]]]]].
    assert (data' = data) by congruence. subst data'.
    exists items. repeat split; [congruence | exact Hall | exact Hrs].
  - intros [items [-> [Hall ->]]].
    rewrite (readEmailsFromJson_string_emails h file data items t
               Hfile Hparse Hall).
    reflexivity.
Qed.

Lemma json_loader_fulfils_iff_witness :
  let file := lit "list.json" in
  let data := lit "[{" ++ quoted (lit "email") ++ lit ":"
              ++ quoted (lit " a@x.com ") ++ lit "},{" ++ quoted (lit "email")
              ++ lit ":" ++ quoted (lit " ") ++ lit "}]" in
  let items := [JObject [(lit "email", JString (lit " a@x.com "))];
                JObject [(lit "email", JString (lit " "))]] in
  let h := table_host [(file, data)] [(data, JArray items)] always_delivers in
  fst (readEmailsFromJson h file []) = Fulfilled [lit "a@x.com"].
Proof.
  intros file data items h.
  apply (proj2 (json_loader_fulfils_iff h file data (JArray items)
                  [lit "a@x.com"] [] eq_refl eq_refl)).
  exists items. repeat split.
Defined.

(** X13. Every entry that the JSON loader returns is non-empty and already
    trimmed, so that trimming it again at send time changes nothing. *)
Theorem json_entries_trimmed (h : Host) (file : jsstring)
    (recipients : list jsstring) (t : trace) :
  fst (readEmailsFromJson h file t) = Fulfilled recipients ->
  Forall (fun s => truthy_string s = true /\ trimmed s) recipients.
Proof.
  intros Hrun.
  destruct (readEmailsFromJson_fulfilled h file recipients t Hrun)
    as [data [items [_ [_ [_ ->]]]]].
  apply json_spec_entries.
Qed.

Lemma json_entries_trimmed_witness :
  let file := lit "list.json" in
  let data := lit "[{" ++ quoted (lit "email") ++ lit ":"
              ++ quoted (lit " a@x.com ") ++ lit "}]" in
  let items := [JObject [(lit "email", JString (lit " a@x.com "))]] in
  let h := table_host [(file, data)] [(data, JArray items)] always_delivers in
  Forall (fun s => truthy_string s = true /\ trimmed s) [lit "a@x.com"].
Proof.
  intros file data items h.
  exact (json_entries_trimmed h file [lit "a@x.com"] [] eq_refl).
Defined.

(** X14. A JSON targets file that is malformed, or whose document is not
    an array, or whose array holds an element without a string [email],
    makes the run reject with [Error parsing JSON: ] and the error, after
    the one read, and the transport is called for nobody. *)
Theorem json_failure_sends_nothing (h : Host) (cfg : Config) (file : jsstring)
    (singleEmail subj : option jsstring) (msg : jsstring) (isHtml : bool)
    (data : jsstring) (t : trace) :
  truthy singleEmail = false ->
  extname h file = lit ".json" ->
  readFile h file = FileData data ->
  match JSON_parse h data with
  | Parsed (JArray items) => forallb has_string_email items = false
  | _ => True
  end ->
  exists reason,
    sendEmails h cfg (Some file) singleEmail subj msg isHtml t
    = (Rejected (ThrownString (lit "Error parsing JSON: " ++ reason)),
       t ++ [ReadFile file])
    /\ sends (t ++ [ReadFile file]) = sends t.
Proof.
  intros Hs Hext Hfile Hbad.
  destruct (readEmailsFromJson_not_loaded h file data t Hfile Hbad)
    as [reason Hrej].
  exists reason. split; [|apply sends_read; eauto].
  apply sendEmails_rejected.
  rewrite (load_json h file singleEmail t Hs Hext).
  rewrite (bind_rejected _ _ _ _ _ Hrej). reflexivity.
Qed.

Lemma json_failure_sends_nothing_witness :
  let file := lit "list.json" in
  let data := lit "{" ++ quoted (lit "email") ++ lit ":"
              ++ quoted (lit "a@x.com") ++ lit "}" in
  let v := JObject [(lit "email", JString (lit "a@x.com"))] in
  let h := table_host [(file, data)] [(data, v)] always_delivers in
  exists reason,
    sendEmails h no_options (Some file) None None (lit "hello") false []
    = (Rejected (ThrownString (lit "Error parsing JSON: " ++ reason)),
       [ReadFile file])
    /\ sends [ReadFile file] = [].
Proof.
  intros file data v h.
  exact (json_failure_sends_nothing h no_options file None None (lit "hello")
           false data [] eq_refl eq_refl eq_refl I).
Defined.

(** ** One message for everybody *)

Lemma mailOptions_differs_in_to (cfg : Config) (r1 r2 : jsstring)
    (subj : option jsstring) (msg : jsstring) (isHtml : bool) :
  from (mailOptions cfg r1 subj msg isHtml) = from (mailOptions cfg r2 subj msg isHtml)
  /\ subject (mailOptions cfg r1 subj msg isHtml)
     = subject (mailOptions cfg r2 subj msg isHtml)
  /\ text (mailOptions cfg r1 subj msg isHtml)
     = text (mailOptions cfg r2 subj msg isHtml)
  /\ html (mailOptions cfg r1 subj msg isHtml)
     = html (mailOptions cfg r2 subj msg isHtml)
  /\ attachments (mailOptions cfg r1 subj msg isHtml)
     = attachments (mailOptions cfg r2 subj msg isHtml).
Proof.
  unfold mailOptions.
  destruct (truthy (argv_link cfg)), (truthy (argv_attachment cfg));
    repeat split; reflexivity.
Qed.

(** X15. In one run every message handed to the transport is the one
    composed from the run's subject, message and mode for its own
    recipient, so any two of them have the same sender, subject, bodies and
    attachments and differ in [to] at most. *)
Theorem run_sends_one_message (h : Host) (cfg : Config)
    (targetFilePath singleEmail subj : option jsstring) (msg : jsstring)
    (isHtml : bool) (t : trace) :
  exists attempts,
    sends (snd (sendEmails h cfg targetFilePath singleEmail subj msg isHtml t))
    = sends t ++ attempts
    /\ Forall (fun m => m = mailOptions cfg (to m) subj msg isHtml) attempts
    /\ forall m1 m2, In m1 attempts -> In m2 attempts ->
         from m1 = from m2 /\ subject m1 = subject m2 /\ text m1 = text m2
         /\ html m1 = html m2 /\ attachments m1 = attachments m2.
Proof.
  destruct (sendEmails_sends h cfg targetFilePath singleEmail subj msg isHtml t)
    as [recipients Hsends].
  eexists. split; [exact Hsends|].
  assert (Hall : Forall (fun m => m = mailOptions cfg (to m) subj msg isHtml)
                   (map (mail_for cfg subj msg isHtml) recipients
                    ++ map (mail_for cfg subj msg isHtml) recipients)).
  { apply Forall_app. split; apply Forall_forall; intros m Hin;
      apply in_map_iff in Hin; destruct Hin as [r [<- _]];
      unfold mail_for; rewrite to_mailOptions; reflexivity. }
  split; [exact Hall|].
  rewrite Forall_forall in Hall. intros m1 m2 H1 H2.
  rewrite (Hall m1 H1), (Hall m2 H2). apply mailOptions_differs_in_to.
Qed.

Lemma run_sends_one_message_witness :
  let file := lit "list.txt" in
  let data := lit "a@x.com" ++ [10] ++ lit "b@x.com" in
  let h := table_host [(file, data)] [] always_delivers in
  let ma := mailOptions no_options (lit "a@x.com") None (lit "hello") false in
  let mb := mailOptions no_options (lit "b@x.com") None (lit "hello") false in
  sends (snd (sendEmails h no_options (Some file) None None (lit "hello")
                false []))
  = [ma; mb; ma; mb]
  /\ text ma = text mb.
Proof.
  intros file data h ma mb.
  destruct (run_sends_one_message h no_options (Some file) None None
              (lit "hello") false []) as [attempts [Hsends [_ Hsame]]].
  assert (Hattempts : attempts = [ma; mb; ma; mb]).
  { vm_compute in Hsends. vm_compute. symmetry. exact Hsends. }
  split.
  - vm_compute. reflexivity.
  - subst attempts.
    exact (proj1 (proj2 (proj2 (Hsame ma mb (or_introl eq_refl)
                                  (or_intror (or_introl eq_refl)))))).
Defined.

(** An option given as the empty string counts as not given: the
    composed message is the same for an empty and for an absent link, link
    text, attachment path and sender name. *)
Lemma empty_option_is_absent (spoofName link link_text attachment user :
    option jsstring) (rcpt : jsstring) (subj : option jsstring)
    (msg : jsstring) (isHtml : bool) :
  mailOptions (config spoofName (Some []) link_text attachment user)
    rcpt subj msg isHtml
  = mailOptions (config spoofName None link_text attachment user)
      rcpt subj msg isHtml
  /\ mailOptions (config spoofName link (Some []) attachment user)
       rcpt subj msg isHtml
     = mailOptions (config spoofName link None attachment user)
         rcpt subj msg isHtml
  /\ mailOptions (config spoofName link link_text (Some []) user)
       rcpt subj msg isHtml
     = mailOptions (config spoofName link link_text None user)
         rcpt subj msg isHtml
  /\ mailOptions (config (Some []) link link_text attachment user)
       rcpt subj msg isHtml
     = mailOptions (config None link link_text attachment user)
         rcpt subj msg isHtml.
Proof.
  repeat split; reflexivity.
Qed.

(** ** The top level *)

Section Top.

Variable h : Host.
Variable cfg : Config.
Variable resolve : jsstring -> jsstring.

Lemma truthy_or_null (v : option jsstring) :
  truthy (or_value v None) = truthy v.
Proof. unfold or_value. destruct (truthy v) eqn:Hv; [exact Hv | reflexivity]. Qed.

Lemma main_exit (argv : Options) (t : trace) (code : N) :
  fst (main h cfg resolve argv t) = Exit code ->
  code = 1
  /\ truthy (argv_m argv) = false
  /\ (truthy (argv_message_file argv) = false
      \/ exists err,
           readFile h (resolve (string_value (argv_message_file argv)))
           = FileError err).
Proof.
  unfold main. rewrite truthy_or_null.
  destruct (truthy (argv_m argv)).
  { destruct (sendEmails h cfg _ _ _ _ _ t); discriminate. }
  destruct (truthy (argv_message_file argv)).
  - destruct (readFile h (resolve (string_value (argv_message_file argv))))
      as [content|err] eqn:Hfile.
    + destruct (sendEmails h cfg _ _ _ _ _ _); discriminate.
    + cbn [fst]. intros Hexit. injection Hexit as <-. eauto.
  - cbn [fst]. intros Hexit. injection Hexit as <-. auto.
Qed.

End Top.

(** X16. When the code of lines 215-236 calls [process.exit], the code is
    1, the transport has been called for nobody and the targets file has
    not been opened: of the files that this code and [sendEmails] open,
    only the message file, if one is named, has been read. *)
Theorem exit_before_any_send (h : Host) (cfg : Config)
    (resolve : jsstring -> jsstring) (argv : Options) (t : trace) (code : N) :
  fst (main h cfg resolve argv t) = Exit code ->
  code = 1
  /\ sends (snd (main h cfg resolve argv t)) = sends t
  /\ reads (snd (main h cfg resolve argv t))
     = reads t
       ++ (if truthy (argv_message_file argv)
           then [resolve (string_value (argv_message_file argv))] else []).
Proof.
  intros Hexit.
  destruct (main_exit h cfg resolve argv t code Hexit) as [Hcode [Hm Hfile]].
  split; [exact Hcode|].
  unfold main in *. rewrite truthy_or_null in *. rewrite Hm in *.
  destruct (truthy (argv_message_file argv)).
  - destruct Hfile as [Hfile|[err Hfile]]; [discriminate|].
    rewrite Hfile. cbn [snd]. rewrite sends_app, reads_app. simpl.
    rewrite app_nil_r. split; reflexivity.
  - cbn [snd]. rewrite sends_app, reads_app. simpl.
    rewrite !app_nil_r. split; reflexivity.
Qed.

Lemma exit_before_any_send_witness :
  let h := table_host [(lit "list.txt", lit "a@x.com")] [] always_delivers in
  let argv := {| argv_m := None; argv_message_file := Some (lit "body.html");
                 argv_type := lit "html"; argv_targets := Some (lit "list.txt");
                 argv_email := None; argv_subject := Some (lit "Hi") |} in
  sends (snd (main h no_options (fun p => p) argv [])) = []
  /\ reads (snd (main h no_options (fun p => p) argv [])) = [lit "body.html"].
Proof.
  intros h argv.
  exact (proj2 (exit_before_any_send h no_options (fun p => p) argv [] 1
                  eq_refl)).
Defined.

(** X17. The code of lines 215-236, reached with the options that yargs
    has accepted, calls [process.exit] exactly when no message is given with
    [-m] (or an empty one) and either no message file is named or the named
    one cannot be read; otherwise it runs [sendEmails]. *)
Theorem exit_iff_no_message (h : Host) (cfg : Config)
    (resolve : jsstring -> jsstring) (argv : Options) (t : trace) :
  (exists code, fst (main h cfg resolve argv t) = Exit code)
  <-> truthy (argv_m argv) = false
      /\ (truthy (argv_message_file argv) = false
          \/ exists err,
               readFile h (resolve (string_value (argv_message_file argv)))
               = FileError err).
Proof.
  split.
  - intros [code Hexit].
    exact (proj2 (main_exit h cfg resolve argv t code Hexit)).
  - intros [Hm Hfile]. exists 1. unfold main.
    rewrite truthy_or_null, Hm.
    destruct (truthy (argv_message_file argv)).
    + destruct Hfile as [Hfile|[err Hfile]]; [discriminate|].
      rewrite Hfile. reflexivity.
    + reflexivity.
Qed.

(** X18. With no [-m] and a readable message file, the script reads the
    resolved path once and passes the whole content, even an empty one, as
    the message: every message handed to the transport is composed from that
    content and the [--subject], in HTML mode exactly when [--type] is
    [html]. *)
Theorem message_file_is_the_message (h : Host) (cfg : Config)
    (resolve : jsstring -> jsstring) (argv : Options) (content : jsstring)
    (t : trace) :
  truthy (argv_m argv) = false ->
  truthy (argv_message_file argv) = true ->
  readFile h (resolve (string_value (argv_message_file argv)))
  = FileData content ->
  main h cfg resolve argv t
  = (Settled (fst (sendEmails h cfg (argv_targets argv) (argv_email argv)
                     (argv_subject argv) content
                     (eqb (argv_type argv) (lit "html"))
                     (t ++ [ReadFile (resolve (string_value
                                                 (argv_message_file argv)))]))),
     snd (sendEmails h cfg (argv_targets argv) (argv_email argv)
            (argv_subject argv) content (eqb (argv_type argv) (lit "html"))
            (t ++ [ReadFile (resolve (string_value (argv_message_file argv)))])))
  /\ exists attempts,
       sends (snd (main h cfg resolve argv t)) = sends t ++ attempts
       /\ Forall (fun m => m = mailOptions cfg (to m) (argv_subject argv) content
                               (eqb (argv_type argv) (lit "html"))) attempts.
Proof.
  intros Hm Hmf Hfile.
  assert (Hmain : main h cfg resolve argv t
    = (Settled (fst (sendEmails h cfg (argv_targets argv) (argv_email argv)
                       (argv_subject argv) content
                       (eqb (argv_type argv) (lit "html"))
                       (t ++ [ReadFile (resolve (string_value
                                                   (argv_message_file argv)))]))),
       snd (sendEmails h cfg (argv_targets argv) (argv_email argv)
              (argv_subject argv) content (eqb (argv_type argv) (lit "html"))
              (t ++ [ReadFile (resolve (string_value
                                          (argv_message_file argv)))])))).
  { unfold main. rewrite truthy_or_null, Hm, Hmf, Hfile.
    destruct (sendEmails h cfg _ _ _ _ _ _). reflexivity. }
  split; [exact Hmain|].
  rewrite Hmain. cbn [snd].
  destruct (sendEmails_sends h cfg (argv_targets argv) (argv_email argv)
              (argv_subject argv) content (eqb (argv_type argv) (lit "html"))
              (t ++ [ReadFile (resolve (string_value (argv_message_file argv)))]))
    as [recipients Hsends].
  eexists. split.
  - rewrite Hsends, sends_app. cbn [sends]. rewrite app_nil_r. reflexivity.
  - apply Forall_app. split; apply Forall_forall; intros m Hin;
      apply in_map_iff in Hin; destruct Hin as [r [<- _]];
      unfold mail_for; rewrite to_mailOptions; reflexivity.
Qed.

Lemma message_file_is_the_message_witness :
  let h := table_host [(lit "body.txt", lit "")] [] always_delivers in
  let argv := {| argv_m := Some (lit ""); argv_message_file := Some (lit "body.txt");
                 argv_type := lit "text"; argv_targets := None;
                 argv_email := Some (lit "a@x.com"); argv_subject := None |} in
  map text (sends (snd (main h no_options (fun p => p) argv [])))
  = [Some (lit ""); Some (lit "")].
Proof.
  intros h argv.
  rewrite (proj1 (message_file_is_the_message h no_options (fun p => p) argv
                    (lit "") [] eq_refl eq_refl eq_refl)).
  vm_compute. reflexivity.
Defined.
